(** * BootNVMDriver_STM32L0x3: the NVM (flash) driver of the STM32 bootloader

    The driver of [BootNVMDriver_STM32L0x3.c] talks to the flash controller
    through volatile loads and stores and busy-waits on its status register.
    Each C function is embedded as an interaction tree over the events the
    function performs, in program order: loads and stores of the [FLASH]
    registers, stores to flash, loads from the receive buffer, the masking
    and unmasking of interrupts.  Values of type [uint32_t] and [uint8_t]
    are integers of [Z], with the conversions of the source written out.
    Two semantics are given to these trees: the set of observation traces a
    function can exchange with an arbitrary environment, and a run against
    a simulated flash controller. *)

From Stdlib Require Import ZArith List String Lia Bool Arith.
From ITree Require Import ITree.
Import ITreeNotations.
Import ListNotations.
Local Open Scope Z_scope.
Local Open Scope itree_scope.

(** * Definitions: the driver, its traces and the simulated controller *)

(** ** Machine integers *)

Definition wrap32 (z : Z) : Z := z mod 2 ^ 32.

Definition wrap8 (z : Z) : Z := z mod 2 ^ 8.

(** [(1<<n)] of the source. *)
Definition BIT (n : Z) : Z := Z.shiftl 1 n.

(** ** Events of the driver *)

(** The fields of [FLASH] the driver touches. *)
Variant reg : Set := PEKEYR | PRGKEYR | PECR | SR.

Variant nvmE : Type -> Type :=
| RegRead (r : reg) : nvmE Z                (* volatile load of FLASH->r *)
| RegWrite (r : reg) (v : Z) : nvmE unit    (* volatile store to FLASH->r *)
| MemWrite (addr v : Z) : nvmE unit         (* volatile store of v at addr *)
| BufRead (idx : Z) : nvmE Z                (* Rx_Message_buf[idx], a word *)
| DisableIrq : nvmE unit                    (* __disable_irq() *)
| EnableIrq : nvmE unit                     (* __enable_irq() *)
| Printf (s : string) : nvmE unit
| NvicSetPriority (irqn prio : Z) : nvmE unit
| NvicEnableIrq (irqn : Z) : nvmE unit.

Definition prog := itree nvmE.

(** [FLASH->r |= m] and [FLASH->r &= ~m]: a volatile load followed by a
    volatile store.  [~m] is computed on [int] and converted to [uint32_t]. *)
Definition reg_set_bits (r : reg) (m : Z) : prog unit :=
  v <- ITree.trigger (RegRead r);;
  ITree.trigger (RegWrite r (Z.lor v m)).

Definition reg_clear_bits (r : reg) (m : Z) : prog unit :=
  v <- ITree.trigger (RegRead r);;
  ITree.trigger (RegWrite r (Z.land v (wrap32 (Z.lnot m)))).

(** [while (cond);] with an empty body. *)
Definition while_ (cond : prog bool) : prog unit :=
  ITree.iter (fun _ : unit =>
                b <- cond;;
                Ret (if b then inl tt else inr tt)) tt.

(** The two conditions of the completion wait. *)
Definition sr_busy (s : Z) : bool := Z.land s (BIT 0) =? BIT 0.

Definition sr_eop (s : Z) : bool := Z.land s (BIT 1) =? BIT 1.

(** A loop condition that loads [FLASH->SR] and tests it. *)
Definition poll_sr (test : Z -> bool) : prog bool :=
  s <- ITree.trigger (RegRead SR);; Ret (test s).

Definition poll_busy : prog bool := poll_sr sr_busy.

Definition poll_not_eop : prog bool := poll_sr (fun s => negb (sr_eop s)).

(** The key pairs, as written in the source. *)
Definition PEKEY1 : Z := 0x89ABCDEF.

Definition PEKEY2 : Z := 0x02030405.

Definition PRGKEY1 : Z := 0x8C9DAEBF.

Definition PRGKEY2 : Z := 0x13141516.

(** ** The functions of the driver *)

(** [NVM_Init]: unlock [PECR], disable the end-of-operation interrupt,
    enable the error interrupt, lock again. *)
Definition NVM_Init : prog unit :=
  ITree.trigger (RegWrite PEKEYR PEKEY1);;
  ITree.trigger (RegWrite PEKEYR PEKEY2);;
  reg_clear_bits PECR (BIT 16);;
  reg_set_bits PECR (BIT 17);;
  reg_set_bits PECR (BIT 0).

(** [FLASHErase_Page]: the value stored at the page address is [(uint32_t)0]. *)
Definition FLASHErase_Page (flash_page_addr : Z) : prog unit :=
  ITree.trigger (RegWrite PEKEYR PEKEY1);;
  ITree.trigger (RegWrite PEKEYR PEKEY2);;
  ITree.trigger (RegWrite PRGKEYR PRGKEY1);;
  ITree.trigger (RegWrite PRGKEYR PRGKEY2);;
  reg_set_bits PECR (BIT 9);;
  reg_set_bits PECR (BIT 3);;
  ITree.trigger (MemWrite flash_page_addr 0);;
  while_ poll_busy;;
  while_ poll_not_eop;;
  reg_set_bits SR (BIT 1);;
  reg_set_bits PECR (BIT 0).

(** [FLASHUpd_Word]: the byte-swapped copy of the value is computed only
    under [#ifdef endian_swap] and the store that would use it is commented
    out; the store that remains writes [updated_flash_value] itself. *)
Definition FLASHUpd_Word (flash_word_addr updated_flash_value : Z) : prog unit :=
  ITree.trigger (RegWrite PEKEYR PEKEY1);;
  ITree.trigger (RegWrite PEKEYR PEKEY2);;
  ITree.trigger (RegWrite PRGKEYR PRGKEY1);;
  ITree.trigger (RegWrite PRGKEYR PRGKEY2);;
  ITree.trigger (MemWrite flash_word_addr updated_flash_value);;
  while_ poll_busy;;
  while_ poll_not_eop;;
  reg_set_bits SR (BIT 1);;
  reg_set_bits PECR (BIT 0).

(** The body of [for (uint8_t i = 0; i < 16; i++)]: one word of the
    buffer, at index [32*page + 16*half + i] (computed on [int]), is stored
    at the half-page address, which is not stepped. *)
Definition burst_body (addr page half i : Z) : prog (Z + unit) :=
  if i <? 16 then
    w <- ITree.trigger (BufRead (32 * page + 16 * half + i));;
    ITree.trigger (MemWrite addr w);;
    Ret (inl (wrap8 (i + 1)))
  else Ret (inr tt).

Definition burst_loop (addr page half : Z) : Z -> prog unit :=
  ITree.iter (burst_body addr page half).

Definition FLASHUpd_HalfPage
  (loc_var_current_flash_half_page_addr full_page_cnt_in_buf half_page_cnt_in_page : Z)
  : prog unit :=
  ITree.trigger (RegWrite PEKEYR PEKEY1);;
  ITree.trigger (RegWrite PEKEYR PEKEY2);;
  ITree.trigger (RegWrite PRGKEYR PRGKEY1);;
  ITree.trigger (RegWrite PRGKEYR PRGKEY2);;
  reg_set_bits PECR (BIT 3);;
  reg_set_bits PECR (BIT 10);;
  ITree.trigger DisableIrq;;
  burst_loop loc_var_current_flash_half_page_addr
             full_page_cnt_in_buf half_page_cnt_in_page 0;;
  while_ poll_busy;;
  while_ poll_not_eop;;
  reg_set_bits SR (BIT 1);;
  reg_clear_bits PECR (BIT 3);;
  reg_clear_bits PECR (BIT 10);;
  reg_set_bits PECR (BIT 0);;
  ITree.trigger EnableIrq.

(** The string literal of the handler; it ends in a carriage return and a
    line feed. *)
Definition memory_error_msg : string :=
  ("Memory error... " ++
   String (Ascii.ascii_of_nat 13) (String (Ascii.ascii_of_nat 10) EmptyString))%string.

Definition FLASH_IRQHandler : prog unit :=
  ITree.trigger (Printf memory_error_msg);;
  reg_set_bits SR (Z.shiftl 0x32F 8);;
  while_ (Ret true).

(** [FLASHIRQPriorEnable]; the interrupt number [FLASH_IRQn] is declared in
    the device header and is a parameter here. *)
Definition FLASHIRQPriorEnable (FLASH_IRQn : Z) : prog unit :=
  ITree.trigger (NvicSetPriority FLASH_IRQn 1);;
  ITree.trigger (NvicEnableIrq FLASH_IRQn).

(** ** Observation traces *)

Inductive obs : Type :=
| ORead (r : reg) (v : Z)
| OWrite (r : reg) (v : Z)
| OMem (addr v : Z)
| OBuf (idx v : Z)
| OIrqOff
| OIrqOn
| OPrintf (s : string)
| ONvicPriority (irqn prio : Z)
| ONvicEnable (irqn : Z).

Definition obs_of {X} (e : nvmE X) : X -> obs :=
  match e in nvmE X return X -> obs with
  | RegRead r => fun v => ORead r v
  | RegWrite r v => fun _ => OWrite r v
  | MemWrite a v => fun _ => OMem a v
  | BufRead i => fun v => OBuf i v
  | DisableIrq => fun _ => OIrqOff
  | EnableIrq => fun _ => OIrqOn
  | Printf s => fun _ => OPrintf s
  | NvicSetPriority n p => fun _ => ONvicPriority n p
  | NvicEnableIrq n => fun _ => ONvicEnable n
  end.

Definition trace := list obs.

(** [exec n t tr o]: after [n] steps (events and silent steps) the tree [t]
    has exchanged exactly the observations [tr] with its environment; with
    [o = Some r] it has then returned [r], with [o = None] the execution is
    observed up to that point only. *)
Fixpoint exec {R} (n : nat) (t : prog R) (tr : trace) (o : option R) : Prop :=
  match n with
  | O => tr = [] /\ match o with
                    | None => True
                    | Some r => observe t = RetF r
                    end
  | S n' => match observe t with
            | RetF _ => False
            | TauF t' => exec n' t' tr o
            | VisF e k => exists x tr', tr = obs_of e x :: tr' /\ exec n' (k x) tr' o
            end
  end.

Definition runs {R} (t : prog R) (tr : trace) (r : R) : Prop :=
  exists n, exec n t tr (Some r).

Definition partial {R} (t : prog R) (tr : trace) : Prop :=
  exists n, exec n t tr None.

(** *** Traces of the tree constructors *)

(** The runs of a loop, iteration by iteration. *)
Inductive iter_trace {I R} (body : I -> prog (I + R)) : I -> trace -> option R -> Prop :=
| iter_stop i tr :
    partial (body i) tr -> iter_trace body i tr None
| iter_last i tr r :
    runs (body i) tr (inr r) -> iter_trace body i tr (Some r)
| iter_again i i' tr1 tr2 o :
    runs (body i) tr1 (inl i') -> iter_trace body i' tr2 o ->
    iter_trace body i (tr1 ++ tr2) o.

(** *** Traces of the statements of the driver *)

(** The observations of a wait loop are loads of [SR]. *)
Definition polls (ss : list Z) : trace := map (ORead SR) ss.

Definition while_body (cond : prog bool) : unit -> prog (unit + unit) :=
  fun _ => b <- cond;; Ret (if b then inl tt else inr tt).

(** The burst loop: sixteen loads from the buffer, each stored at [addr]. *)
Fixpoint burst_trace (addr idx : Z) (ws : list Z) : trace :=
  match ws with
  | [] => []
  | w :: ws' => OBuf idx w :: OMem addr w :: burst_trace addr (idx + 1) ws'
  end.

(** *** The completion wait *)

(** What the environment answers during one completion wait: the loads of
    [SR] seen by the first loop, by the second loop, and by [SR |= (1<<1)]. *)
Record wait_answers : Type := WaitAnswers {
  wa_busy : list Z;      (* loads on which the first loop went round *)
  wa_idle : Z;           (* the load that ended the first loop *)
  wa_pending : list Z;   (* loads on which the second loop went round *)
  wa_done : Z;           (* the load that ended the second loop *)
  wa_ack : Z             (* the load of the read-modify-write of SR *)
}.

Definition wait_ok (w : wait_answers) : Prop :=
  Forall (fun s => sr_busy s = true) (wa_busy w) /\
  sr_busy (wa_idle w) = false /\
  Forall (fun s => sr_eop s = false) (wa_pending w) /\
  sr_eop (wa_done w) = true.

Definition wait_trace (w : wait_answers) : trace :=
  polls (wa_busy w) ++ ORead SR (wa_idle w) ::
  polls (wa_pending w) ++ ORead SR (wa_done w) ::
  [ORead SR (wa_ack w); OWrite SR (Z.lor (wa_ack w) (BIT 1))].

(** *** The traces of the driver's functions *)

Definition set_obs (r : reg) (m v : Z) : trace :=
  [ORead r v; OWrite r (Z.lor v m)].

Definition clear_obs (r : reg) (m v : Z) : trace :=
  [ORead r v; OWrite r (Z.land v (wrap32 (Z.lnot m)))].

Definition unlock_obs : trace :=
  [OWrite PEKEYR PEKEY1; OWrite PEKEYR PEKEY2;
   OWrite PRGKEYR PRGKEY1; OWrite PRGKEYR PRGKEY2].

Definition init_trace (v1 v2 v3 : Z) : trace :=
  [OWrite PEKEYR PEKEY1; OWrite PEKEYR PEKEY2] ++
  clear_obs PECR (BIT 16) v1 ++ set_obs PECR (BIT 17) v2 ++ set_obs PECR (BIT 0) v3.

Definition erase_trace (a v1 v2 : Z) (w : wait_answers) (v3 : Z) : trace :=
  unlock_obs ++ set_obs PECR (BIT 9) v1 ++ set_obs PECR (BIT 3) v2 ++
  [OMem a 0] ++ wait_trace w ++ set_obs PECR (BIT 0) v3.

Definition word_trace (a x : Z) (w : wait_answers) (v : Z) : trace :=
  unlock_obs ++ [OMem a x] ++ wait_trace w ++ set_obs PECR (BIT 0) v.

Definition halfpage_trace (a p h v1 v2 : Z) (ws : list Z) (w : wait_answers)
  (v3 v4 v5 : Z) : trace :=
  unlock_obs ++ set_obs PECR (BIT 3) v1 ++ set_obs PECR (BIT 10) v2 ++
  [OIrqOff] ++ burst_trace a (32 * p + 16 * h) ws ++ wait_trace w ++
  clear_obs PECR (BIT 3) v3 ++ clear_obs PECR (BIT 10) v4 ++
  set_obs PECR (BIT 0) v5 ++ [OIrqOn].

(** ** Projections of a trace *)

(** The loads from [Rx_Message_buf], as (index, word), in program order. *)
Definition buf_loads (tr : trace) : list (Z * Z) :=
  flat_map (fun e => match e with OBuf i v => [(i, v)] | _ => [] end) tr.

(** The stores to flash, as (address, word), in program order. *)
Definition mem_stores (tr : trace) : list (Z * Z) :=
  flat_map (fun e => match e with OMem a v => [(a, v)] | _ => [] end) tr.

(** The accesses to the status register. *)
Definition is_sr (e : obs) : bool :=
  match e with
  | ORead SR _ | OWrite SR _ => true
  | _ => false
  end.

Definition sr_accesses (tr : trace) : trace := filter is_sr tr.

(** The indices [idx, idx+1, ...] paired with the words loaded there. *)
Fixpoint indexed (idx : Z) (ws : list Z) : list (Z * Z) :=
  match ws with
  | [] => []
  | w :: ws' => (idx, w) :: indexed (idx + 1) ws'
  end.

(** ** An example run of each function

    The answers of a controller that is busy for one poll and then reports
    completion, with [PECR] reading back what was stored. *)

Definition example_wait : wait_answers := WaitAnswers [1] 2 [] 2 2.

Definition example_words : list Z := map Z.of_nat (seq 0 16).

Definition example_erase_run : trace :=
  erase_trace 0x08003000 4 0x204 example_wait 0x20C.

Definition example_word_run : trace :=
  word_trace 0x08003000 0xDEADBEEF example_wait 4.

Definition example_halfpage_run : trace :=
  halfpage_trace 0x08003000 0 0 4 0xC example_words example_wait 0x40C 0x404 4.

(** ** The mutating operations *)

Variant mutating_op : Type :=
| ErasePage (addr : Z)
| ProgramWord (addr value : Z)
| ProgramHalfPage (addr page half : Z).

Definition run_op (op : mutating_op) : prog unit :=
  match op with
  | ErasePage a => FLASHErase_Page a
  | ProgramWord a v => FLASHUpd_Word a v
  | ProgramHalfPage a p h => FLASHUpd_HalfPage a p h
  end.

(** What is left of a run after the completion wait: the clearing of the
    mode bits (half-page programming only), the store that sets [PELOCK],
    and the re-enabling of interrupts (half-page programming only). *)
Definition after_wait (op : mutating_op) (cl1 cl2 lk : Z) : trace :=
  match op with
  | ErasePage _ | ProgramWord _ _ => set_obs PECR (BIT 0) lk
  | ProgramHalfPage _ _ _ =>
      clear_obs PECR (BIT 3) cl1 ++ clear_obs PECR (BIT 10) cl2 ++
      set_obs PECR (BIT 0) lk ++ [OIrqOn]
  end.

(** What a run does before the completion wait. *)
Definition before_wait (op : mutating_op) (v1 v2 : Z) (ws : list Z) : trace :=
  match op with
  | ErasePage a =>
      unlock_obs ++ set_obs PECR (BIT 9) v1 ++ set_obs PECR (BIT 3) v2 ++ [OMem a 0]
  | ProgramWord a x => unlock_obs ++ [OMem a x]
  | ProgramHalfPage a p h =>
      unlock_obs ++ set_obs PECR (BIT 3) v1 ++ set_obs PECR (BIT 10) v2 ++
      [OIrqOff] ++ burst_trace a (32 * p + 16 * h) ws
  end.

(** ** Executions that stay in the completion wait *)

(** The three statements of the completion wait, followed by [k]. *)
Definition wait_then {U} (k : prog U) : prog U :=
  while_ poll_busy;; while_ poll_not_eop;; reg_set_bits SR (BIT 1);; k.

(** The hardware never shows the busy flag clear, resp. never shows the
    completion flag set, on any load of [SR] of the trace. *)
Definition never_idle (tr : trace) : Prop :=
  forall s, In (ORead SR s) tr -> Z.testbit s 0 = true.

Definition never_done (tr : trace) : Prop :=
  forall s, In (ORead SR s) tr -> Z.testbit s 1 = false.

Definition example_hung_erase : trace :=
  before_wait (ErasePage 0x08003000) 4 0x204 [] ++ polls [1; 1; 1].

(** ** The fault handler *)

Definition handler_trace (v : Z) : trace :=
  [OPrintf memory_error_msg; ORead SR v; OWrite SR (Z.lor v (Z.shiftl 0x32F 8))].

Definition is_prefix (tr full : trace) : Prop := exists rest, full = tr ++ rest.

(** The error flags of [SR] the handler writes a 1 to. *)
Definition error_flag_bits : list Z := [8; 9; 10; 11; 13; 16; 17].

(** ** Executions that can still return

    A tree is [extendable] when every execution observed so far can be
    continued, by suitable answers of the environment, to one that returns.
    All functions of the driver but the fault handler are. *)

Definition extendable {R} (t : prog R) : Prop :=
  forall tr, partial t tr -> exists tr' r, runs t (tr ++ tr') r.

Definition default_answer {X} (e : nvmE X) : X :=
  match e in nvmE X return X with
  | RegRead _ | BufRead _ => 0
  | RegWrite _ _ | MemWrite _ _ | DisableIrq | EnableIrq | Printf _
  | NvicSetPriority _ _ | NvicEnableIrq _ => tt
  end.

(** ** The interrupt mask during half-page programming *)

(** Where an execution stands with respect to the interrupt mask. *)
Variant irq_phase : Set :=
| Unmasked     (* __disable_irq() not yet called *)
| Masked       (* between __disable_irq() and __enable_irq() *)
| Restored.    (* __enable_irq() called *)

(** The discipline: no load from the buffer, no store to flash and no
    access to [SR] before interrupts are masked; once masked they are
    unmasked at most once, and nothing at all follows the unmasking. *)
Definition irq_step (ph : irq_phase) (e : obs) : option irq_phase :=
  match ph with
  | Unmasked =>
      match e with
      | OIrqOff => Some Masked
      | OIrqOn | OMem _ _ | OBuf _ _ | ORead SR _ | OWrite SR _ => None
      | _ => Some Unmasked
      end
  | Masked =>
      match e with
      | OIrqOn => Some Restored
      | OIrqOff => None
      | _ => Some Masked
      end
  | Restored => None
  end.

Fixpoint irq_monitor (ph : irq_phase) (tr : trace) : option irq_phase :=
  match tr with
  | [] => Some ph
  | e :: tr' => match irq_step ph e with
                | Some ph' => irq_monitor ph' tr'
                | None => None
                end
  end.

(** The part of a run of half-page programming before [__disable_irq()]
    and the part between [__disable_irq()] and [__enable_irq()]. *)
Definition halfpage_setup (v1 v2 : Z) : trace :=
  unlock_obs ++ set_obs PECR (BIT 3) v1 ++ set_obs PECR (BIT 10) v2.

Definition halfpage_critical (a p h : Z) (ws : list Z) (w : wait_answers)
  (v3 v4 v5 : Z) : trace :=
  burst_trace a (32 * p + 16 * h) ws ++ wait_trace w ++
  clear_obs PECR (BIT 3) v3 ++ clear_obs PECR (BIT 10) v4 ++
  set_obs PECR (BIT 0) v5.

(** ** The accesses to the control register [PECR] *)

Definition is_pecr (e : obs) : bool :=
  match e with
  | ORead PECR _ | OWrite PECR _ => true
  | _ => false
  end.

Definition pecr_accesses (tr : trace) : trace := filter is_pecr tr.

(** The values stored in [PECR], in program order, and the last of them. *)
Definition pecr_stores (tr : trace) : list Z :=
  flat_map (fun e => match e with OWrite PECR v => [v] | _ => [] end) tr.

Definition last_pecr_store (tr : trace) : option Z :=
  last (map Some (pecr_stores tr)) None.

(** The read-modify-write updates of [PECR]: each store that directly
    follows a load, among the accesses to [PECR], with the value loaded. *)
Fixpoint rmw_pairs (acc : trace) : list (Z * Z) :=
  match acc with
  | ORead PECR v :: ((OWrite PECR v' :: acc') as rest) => (v, v') :: rmw_pairs acc'
  | _ :: rest => rmw_pairs rest
  | [] => []
  end.

Definition pecr_updates (tr : trace) : list (Z * Z) := rmw_pairs (pecr_accesses tr).

(** [PECR] behaves as a register during the trace: a load that follows a
    store returns the value stored. *)
Fixpoint reads_back (cur : option Z) (acc : trace) : bool :=
  match acc with
  | [] => true
  | ORead PECR v :: acc' =>
      match cur with
      | Some c => (v =? c) && reads_back cur acc'
      | None => reads_back cur acc'
      end
  | OWrite PECR v :: acc' => reads_back (Some v) acc'
  | _ :: acc' => reads_back cur acc'
  end.

Definition pecr_reads_back (tr : trace) : bool := reads_back None (pecr_accesses tr).

(** The stores to the key registers. *)
Definition key_stores (tr : trace) : trace :=
  filter (fun e => match e with
                   | OWrite PEKEYR _ | OWrite PRGKEYR _ => true
                   | _ => false
                   end) tr.

(** The accesses to [PECR] of a run of each operation. *)
Definition op_pecr_accesses (op : mutating_op) (v1 v2 cl1 cl2 lk : Z) : trace :=
  match op with
  | ErasePage _ =>
      set_obs PECR (BIT 9) v1 ++ set_obs PECR (BIT 3) v2 ++ set_obs PECR (BIT 0) lk
  | ProgramWord _ _ => set_obs PECR (BIT 0) lk
  | ProgramHalfPage _ _ _ =>
      set_obs PECR (BIT 3) v1 ++ set_obs PECR (BIT 10) v2 ++
      clear_obs PECR (BIT 3) cl1 ++ clear_obs PECR (BIT 10) cl2 ++
      set_obs PECR (BIT 0) lk
  end.

(** ** The data lock *)

(** [PELOCK], the data lock, is bit 0 of [PECR]. *)
Definition PELOCK_bit : Z := 0.

(** ** The driver against a simulated flash controller *)

Module Controller.

(** ** State *)

(** Modelled from the spec: the NVM controller and the flash array behind
    the [FLASH] registers, which are hardware and not part of the sources.
    The state follows the data model (3): the control register with the
    data lock in bit 0 and the mode bits, the program lock, one key port
    per lock, the status register, the flash words, the words latched by a
    half-page burst, the interrupt mask, the caller's buffer, and whether
    a mode has been selected in the operation in progress.  An operation
    stays busy for [latency] polls of [SR]. *)
Record nvm : Type := mkNvm {
  pecr : Z;
  prglock : bool;
  pekey_seen : Z;        (* the last value written to PEKEYR *)
  prgkey_seen : Z;       (* the last value written to PRGKEYR *)
  sr : Z;                (* SR as it reads once the operation is over *)
  pending : nat;         (* polls of SR for which the operation is still busy *)
  latency : nat;
  mem : Z -> Z;          (* flash words by byte address *)
  latch : list Z;
  irq_masked : bool;
  rx_buf : Z -> Z;
  selecting : bool       (* PECR has been written since the data lock was opened *)
}.

Definition set_pecr (d : nvm) (v : Z) : nvm :=
  mkNvm v (prglock d) (pekey_seen d) (prgkey_seen d) (sr d) (pending d)
        (latency d) (mem d) (latch d) (irq_masked d) (rx_buf d)
        (selecting d).

Definition set_prglock (d : nvm) (b : bool) : nvm :=
  mkNvm (pecr d) b (pekey_seen d) (prgkey_seen d) (sr d) (pending d)
        (latency d) (mem d) (latch d) (irq_masked d) (rx_buf d)
        (selecting d).

Definition set_pekey_seen (d : nvm) (v : Z) : nvm :=
  mkNvm (pecr d) (prglock d) v (prgkey_seen d) (sr d) (pending d)
        (latency d) (mem d) (latch d) (irq_masked d) (rx_buf d)
        (selecting d).

Definition set_prgkey_seen (d : nvm) (v : Z) : nvm :=
  mkNvm (pecr d) (prglock d) (pekey_seen d) v (sr d) (pending d)
        (latency d) (mem d) (latch d) (irq_masked d) (rx_buf d)
        (selecting d).

Definition set_sr (d : nvm) (v : Z) : nvm :=
  mkNvm (pecr d) (prglock d) (pekey_seen d) (prgkey_seen d) v (pending d)
        (latency d) (mem d) (latch d) (irq_masked d) (rx_buf d)
        (selecting d).

Definition set_pending (d : nvm) (n : nat) : nvm :=
  mkNvm (pecr d) (prglock d) (pekey_seen d) (prgkey_seen d) (sr d) n
        (latency d) (mem d) (latch d) (irq_masked d) (rx_buf d)
        (selecting d).

Definition set_mem (d : nvm) (m : Z -> Z) : nvm :=
  mkNvm (pecr d) (prglock d) (pekey_seen d) (prgkey_seen d) (sr d) (pending d)
        (latency d) m (latch d) (irq_masked d) (rx_buf d)
        (selecting d).

Definition set_latch (d : nvm) (l : list Z) : nvm :=
  mkNvm (pecr d) (prglock d) (pekey_seen d) (prgkey_seen d) (sr d) (pending d)
        (latency d) (mem d) l (irq_masked d) (rx_buf d)
        (selecting d).

Definition set_selecting (d : nvm) (b : bool) : nvm :=
  mkNvm (pecr d) (prglock d) (pekey_seen d) (prgkey_seen d) (sr d) (pending d)
        (latency d) (mem d) (latch d) (irq_masked d) (rx_buf d) b.

Definition set_irq_masked (d : nvm) (b : bool) : nvm :=
  mkNvm (pecr d) (prglock d) (pekey_seen d) (prgkey_seen d) (sr d) (pending d)
        (latency d) (mem d) (latch d) b (rx_buf d)
        (selecting d).

(** ** The flash array *)

Definition ALL_ONES : Z := 0xFFFFFFFF.

Definition PAGE_BYTES : Z := 128.

Definition HALF_PAGE_BYTES : Z := 64.

Definition page_base (a : Z) : Z := a - a mod PAGE_BYTES.

Definition half_page_base (a : Z) : Z := a - a mod HALF_PAGE_BYTES.

(** Modelled from the spec: erasing makes the whole page read as all-ones
    (4.3); a page is 128 bytes, as the comment of [FLASHErase_Page] says. *)
Definition erase_page (m : Z -> Z) (a : Z) : Z -> Z :=
  fun x => if (page_base a <=? x) && (x <? page_base a + PAGE_BYTES)
           then ALL_ONES else m x.

(** Modelled from the spec: programming one word; an erased word takes the
    value, any other word takes the bitwise OR of its content and the value
    (4.4, 8). *)
Definition program_cell (old v : Z) : Z :=
  if old =? ALL_ONES then v else Z.lor old v.

Definition program_word (m : Z -> Z) (a v : Z) : Z -> Z :=
  fun x => if x =? a then program_cell (m a) v else m x.

(** Modelled from the spec: committing a burst; word [i] lands at
    [base + 4*i] (8). *)
Fixpoint program_words (m : Z -> Z) (base : Z) (ws : list Z) : Z -> Z :=
  match ws with
  | [] => m
  | w :: ws' => program_words (program_word m base w) (base + 4) ws'
  end.

(** ** The registers *)

Definition data_locked (d : nvm) : bool := Z.testbit (pecr d) PELOCK_bit.

(** Modelled from the spec: a lock opens when the second key of its pair is
    written right after the first, and stays as it is otherwise; the
    program lock opens only when the data lock is open (3, 4.1).  Opening
    the data lock begins an operation, in which no mode has been selected
    yet: every operation is self-contained, nothing but the memory
    contents carrying over from one call to the next (3). *)
Definition write_pekeyr (d : nvm) (v : Z) : nvm :=
  let d' := set_pekey_seen d v in
  if (pekey_seen d =? PEKEY1) && (v =? PEKEY2)
  then set_selecting (set_pecr d' (Z.clearbit (pecr d) PELOCK_bit)) false
  else d'.

Definition write_prgkeyr (d : nvm) (v : Z) : nvm :=
  let d' := set_prgkey_seen d v in
  if (prgkey_seen d =? PRGKEY1) && (v =? PRGKEY2) && negb (data_locked d)
  then set_prglock d' false
  else d'.

(** Modelled from the spec: writes to the control register have no effect
    while it is locked (3).  A write that sets the data lock is the release
    step; it re-locks both locks (4.3), the program lock being open only
    while the data lock is (4.1). *)
Definition write_pecr (d : nvm) (v : Z) : nvm :=
  if data_locked d then d
  else let d' := set_selecting (set_pecr d v) true in
       if Z.testbit v PELOCK_bit then set_prglock d' true else d'.

(** Modelled from the spec: status flags are cleared by writing 1 to them
    (4.2, 9); the busy flag is not writable. *)
Definition write_sr (d : nvm) (v : Z) : nvm :=
  set_sr d (Z.ldiff (sr d) (Z.clearbit v 0)).

(** Modelled from the spec: while an operation is in progress [SR] shows
    busy and not complete (glossary). *)
Definition busy_view (s : Z) : Z := Z.setbit (Z.clearbit s 1) 0.

Definition read_sr (d : nvm) : nvm * Z :=
  match pending d with
  | O => (d, sr d)
  | S n => (set_pending d n, busy_view (sr d))
  end.

(** Modelled from the spec: an operation, once started, is busy for
    [latency] polls and then complete. *)
Definition start_operation (d : nvm) : nvm :=
  set_pending (set_sr d (Z.setbit (Z.clearbit (sr d) 0) 1)) (latency d).

Variant mode : Set := EraseMode | HalfPageMode | WordMode.

(** Modelled from the spec: the operation selected by the mode bits of the
    control register; erase-select is bit 9, program-target-select bit 3
    and half-page mode bit 10, as the source sets them (4.3, 4.5); with
    none selected a store programs one word (4.4). *)
Definition mode_of (c : Z) : mode :=
  if Z.testbit c 9 && Z.testbit c 3 then EraseMode
  else if Z.testbit c 10 && Z.testbit c 3 then HalfPageMode
  else WordMode.

(** Modelled from the spec: the mode in force for a store to flash.  The
    mode is selected for the operation, after the unlocking (4.3, 4.5);
    while the control register has not been written since the data lock
    was opened, no mode is selected and a store programs a word: a word
    write needs no mode bits beyond the default (4.4) and programs the
    word also right after an erase (8). *)
Definition mode_in_force (d : nvm) : mode :=
  if selecting d then mode_of (pecr d) else WordMode.

(** Modelled from the spec: a store to flash has no effect unless both
    locks are open (3); what it does then is chosen by the mode in force
    (4.3, 4.4, 4.5); in half-page mode the words are latched and committed
    when the sixteenth arrives (4.5). *)
Definition write_mem (d : nvm) (a v : Z) : nvm :=
  if data_locked d || prglock d then d
  else match mode_in_force d with
       | EraseMode => start_operation (set_mem d (erase_page (mem d) a))
       | WordMode => start_operation (set_mem d (program_word (mem d) a v))
       | HalfPageMode =>
           let l := latch d ++ [v] in
           if (List.length l <? 16)%nat then set_latch d l
           else start_operation
                  (set_latch (set_mem d (program_words (mem d) (half_page_base a) l)) [])
       end.

(** Modelled from the spec: what each event of the driver does to the
    controller and what it answers. *)
Definition handle {X} (e : nvmE X) (d : nvm) : nvm * X :=
  match e in nvmE X return nvm * X with
  | RegRead PECR => (d, pecr d)
  | RegRead SR => read_sr d
  | RegRead PEKEYR | RegRead PRGKEYR => (d, 0)
  | RegWrite PEKEYR v => (write_pekeyr d v, tt)
  | RegWrite PRGKEYR v => (write_prgkeyr d v, tt)
  | RegWrite PECR v => (write_pecr d v, tt)
  | RegWrite SR v => (write_sr d v, tt)
  | MemWrite a v => (write_mem d a v, tt)
  | BufRead i => (d, rx_buf d i)
  | DisableIrq => (set_irq_masked d true, tt)
  | EnableIrq => (set_irq_masked d false, tt)
  | Printf _ | NvicSetPriority _ _ | NvicEnableIrq _ => (d, tt)
  end.

(** ** Running a tree on the controller *)

(** [run fuel t d]: [t] executed on the controller from state [d], for at
    most [fuel] steps. *)
Fixpoint run {R} (fuel : nat) (t : prog R) (d : nvm) : option (nvm * R) :=
  match fuel with
  | O => None
  | S f => match observe t with
           | RetF r => Some (d, r)
           | TauF t' => run f t' d
           | VisF e k => let (d', x) := handle e d in run f (k x) d'
           end
  end.

(** [returns t d d' r]: started in state [d], the tree returns [r] and
    leaves the controller in state [d']. *)
Definition returns {R} (t : prog R) (d d' : nvm) (r : R) : Prop :=
  exists fuel, run fuel t d = Some (d', r).

(** The controller accepts an observation when it is what the event behind
    it does on the controller, with the answer the controller gives. *)
Definition follow_step (d : nvm) (o : obs) : option nvm :=
  match o with
  | ORead r v =>
      let (d', x) := handle (RegRead r) d in if x =? v then Some d' else None
  | OBuf i v =>
      let (d', x) := handle (BufRead i) d in if x =? v then Some d' else None
  | OWrite r v => Some (fst (handle (RegWrite r v) d))
  | OMem a v => Some (fst (handle (MemWrite a v) d))
  | OIrqOff => Some (fst (handle DisableIrq d))
  | OIrqOn => Some (fst (handle EnableIrq d))
  | OPrintf m => Some (fst (handle (Printf m) d))
  | ONvicPriority n p => Some (fst (handle (NvicSetPriority n p) d))
  | ONvicEnable n => Some (fst (handle (NvicEnableIrq n) d))
  end.

(** [follows d tr]: the state the controller reaches along the trace [tr],
    if the answers in [tr] are the controller's. *)
Fixpoint follows (d : nvm) (tr : trace) : option nvm :=
  match tr with
  | [] => Some d
  | o :: tr' => match follow_step d o with
                | Some d' => follows d' tr'
                | None => None
                end
  end.

End Controller.

Import Controller.

(** ** The steps of the driver on the controller *)

(** The state after the four key stores. *)
Definition unlocked_both (d : nvm) : nvm :=
  mkNvm (Z.clearbit (pecr d) 0) false PEKEY2 PRGKEY2 (sr d) (pending d)
        (latency d) (mem d) (latch d) (irq_masked d) (rx_buf d) false.

Definition unlocked_data (d : nvm) : nvm :=
  mkNvm (Z.clearbit (pecr d) 0) (prglock d) PEKEY2 (prgkey_seen d) (sr d)
        (pending d) (latency d) (mem d) (latch d) (irq_masked d) (rx_buf d) false.

(** The state after a store to [PECR] made with the data lock open. *)
Definition stored_pecr (d : nvm) (v : Z) : nvm := set_selecting (set_pecr d v) true.

(** The state after the release step [PECR |= (1<<0)], made with the data
    lock open. *)
Definition relocked (d : nvm) : nvm :=
  set_prglock (stored_pecr d (Z.lor (pecr d) (BIT 0))) true.

(** ** The completion wait on the controller *)

(** The state after the completion wait: the operation is over and the
    flags that were set have been written back as 1, which clears them. *)
Definition acknowledged (d : nvm) : nvm :=
  set_sr (set_pending d 0) (Z.ldiff (sr d) (Z.clearbit (Z.lor (sr d) (BIT 1)) 0)).

(** ** Page erase on the controller *)

(** The control register once erase mode is selected. *)
Definition erase_selected (c : Z) : Z := Z.lor (Z.lor (Z.clearbit c 0) (BIT 9)) (BIT 3).

(** The state [FLASHErase_Page] leaves. *)
Definition after_erase (d : nvm) (a : Z) : nvm :=
  let d1 := stored_pecr (unlocked_both d) (erase_selected (pecr d)) in
  relocked (acknowledged (start_operation (set_mem d1 (erase_page (mem d) a)))).

(** A controller after power-on: both locks set, nothing selected. *)
Definition power_on (lat : nat) (m buf : Z -> Z) : nvm :=
  mkNvm 1 true 0 0 0 0 lat m [] false buf false.

(** ** Word programming on the controller *)


(** ** Half-page programming on the controller *)



(** ** Initialisation on the controller *)

(** What [NVM_Init] leaves in the control register. *)
Definition init_pecr (c : Z) : Z :=
  Z.lor (Z.lor (Z.land (Z.clearbit c 0) (wrap32 (Z.lnot (BIT 16)))) (BIT 17)) (BIT 0).

Definition after_init (d : nvm) : nvm :=
  set_prglock (stored_pecr (unlocked_data d) (init_pecr (pecr d))) true.

(** ** Executions of bounded length *)

(** Every execution of [t], returned or not, takes at most [k] steps. *)
Definition finishes_within {R} (k : nat) (t : prog R) : Prop :=
  forall n tr o, exec n t tr o -> (n <= k)%nat.

(** ** Loads of the control register *)

Definition pecr_loads (tr : trace) : list Z :=
  flat_map (fun e => match e with ORead PECR v => [v] | _ => [] end) tr.

Definition first_pecr_load (tr : trace) : option Z := hd_error (pecr_loads tr).

(** ** What precedes the first store to flash *)

(** The unlocking and, where there is one, the mode selection and the
    masking of interrupts: what each operation does before it stores to
    flash for the first time. *)
Definition prologue (op : mutating_op) (v1 v2 : Z) : trace :=
  match op with
  | ErasePage _ =>
      unlock_obs ++ set_obs PECR (BIT 9) v1 ++ set_obs PECR (BIT 3) v2
  | ProgramWord _ _ => unlock_obs
  | ProgramHalfPage _ _ _ =>
      unlock_obs ++ set_obs PECR (BIT 3) v1 ++ set_obs PECR (BIT 10) v2 ++ [OIrqOff]
  end.

(** The calls of [__disable_irq()] and [__enable_irq()]. *)
Definition irq_events (tr : trace) : trace :=
  filter (fun e => match e with OIrqOff | OIrqOn => true | _ => false end) tr.

(** ** The byte swap of [FLASHUpd_Word] *)

(** [swapped_updated_flash_value], which [FLASHUpd_Word] computes from its
    argument under [#ifdef endian_swap]; the shifts are those of
    [uint32_t].  The store that would write it to flash is commented out
    in the source, so the value is computed and not used. *)
Definition swapped_updated_flash_value (updated_flash_value : Z) : Z :=
  Z.lor (Z.lor (Z.lor (Z.land (Z.shiftr updated_flash_value 24) 0xff)
                      (Z.land (wrap32 (Z.shiftl updated_flash_value 8)) 0xff0000))
               (Z.land (Z.shiftr updated_flash_value 8) 0xff00))
        (Z.land (wrap32 (Z.shiftl updated_flash_value 24)) 0xff000000).

(** Byte [k] of a word, byte 0 being the least significant. *)
Definition byte_of (v k : Z) : Z := Z.land (Z.shiftr v (8 * k)) 0xff.

(** The bit of the argument that ends up at bit [n] of the swapped word. *)
Definition swap_source (n : Z) : Z :=
  if n <? 8 then n + 24
  else if n <? 16 then n + 8
  else if n <? 24 then n - 8
  else n - 24.

(** ** Sequences of calls of the driver *)

(** A call of one of the functions that write [PECR]. *)
Variant driver_call : Type :=
| Initialise
| Mutate (op : mutating_op).

Definition run_call (c : driver_call) : prog unit :=
  match c with
  | Initialise => NVM_Init
  | Mutate op => run_op op
  end.

(** The calls of a list, one after the other. *)
Fixpoint run_calls (cs : list driver_call) : prog unit :=
  match cs with
  | [] => Ret tt
  | c :: cs' => run_call c;; run_calls cs'
  end.

(** Bit [b] of [PECR] changes through the stores of the driver only:
    [bit_monitor b cur tr] follows the bit as last stored (unknown before
    the first store) along [tr] and fails on a load that shows it
    otherwise. *)
Fixpoint bit_monitor (b : Z) (cur : option bool) (tr : trace) : option (option bool) :=
  match tr with
  | [] => Some cur
  | ORead PECR v :: tr' =>
      match cur with
      | Some c => if Bool.eqb (Z.testbit v b) c then bit_monitor b cur tr' else None
      | None => bit_monitor b cur tr'
      end
  | OWrite PECR v :: tr' => bit_monitor b (Some (Z.testbit v b)) tr'
  | _ :: tr' => bit_monitor b cur tr'
  end.

(** Along [tr], entered with bit [b] of [PECR] set, the bit stays set:
    every value stored in [PECR] has it set, and so it is at the end. *)
Definition stays_set (b : Z) (tr : trace) : Prop :=
  bit_monitor b (Some true) tr <> None ->
  bit_monitor b (Some true) tr = Some (Some true) /\
  Forall (fun c => Z.testbit c b = true) (pecr_stores tr).

(** A run of an erase followed by the programming of a word of the erased
    page: [PECR] reads back what the erase left in it, with the lock bit
    cleared by the unlocking. *)
Definition example_erase_then_word : trace :=
  example_erase_run ++ word_trace 0x08003000 0xDEADBEEF example_wait 0x20C.

(** ** Where the operations store *)

(** The address an operation is called with. *)
Definition target_address (op : mutating_op) : Z :=
  match op with
  | ErasePage a | ProgramWord a _ | ProgramHalfPage a _ _ => a
  end.

(** The number of stores to flash an operation makes: the burst of
    half-page programming has sixteen; the other two make one. *)
Definition store_count (op : mutating_op) : nat :=
  match op with
  | ProgramHalfPage _ _ _ => 16
  | _ => 1
  end.

(** The values stored in the status register. *)
Definition sr_stores (tr : trace) : list Z :=
  flat_map (fun e => match e with OWrite SR v => [v] | _ => [] end) tr.

(** The loads of a completion wait: all of it but the final store. *)
Definition wait_loads (w : wait_answers) : trace :=
  polls (wa_busy w) ++ ORead SR (wa_idle w) ::
  polls (wa_pending w) ++ [ORead SR (wa_done w); ORead SR (wa_ack w)].

(** ** The interrupt mask *)

(** The interrupt mask after a trace, given the mask before it:
    [__disable_irq()] masks the interrupts and [__enable_irq()] unmasks
    them, whatever the mask was; nothing else the driver does changes it. *)
Definition mask_after (masked : bool) (tr : trace) : bool :=
  fold_left (fun m e => match e with
                        | OIrqOff => true
                        | OIrqOn => false
                        | _ => m
                        end) tr masked.

(** The values loaded from the status register. *)
Definition sr_loads (tr : trace) : list Z :=
  flat_map (fun e => match e with ORead SR v => [v] | _ => [] end) tr.

(** ** A run of half-page programming away from the start of the buffer *)

(** The second half of page 3 of the buffer, programmed at the half-page
    [0x080031C0]; the buffer holds its own indices. *)
Definition example_words_3_1 : list Z := map Z.of_nat (seq 112 16).

Definition example_halfpage_run_3_1 : trace :=
  halfpage_trace 0x080031C0 3 1 4 0xC example_words_3_1 example_wait 0x40C 0x404 4.

(** * Properties *)

(** ** Observation traces *)

Lemma observe_bind {R U} (t : prog R) (k : R -> prog U) :
  observe (ITree.bind t k) =
  match observe t with
  | RetF r => observe (k r)
  | TauF t' => TauF (ITree.bind t' k)
  | VisF e h => VisF e (fun x => ITree.bind (h x) k)
  end.
Proof.
  change (observe (ITree.bind t k))
    with (observe (match observe t with
                   | RetF r => k r
                   | TauF t' => Tau (ITree.bind t' k)
                   | VisF e h => Vis e (fun x => ITree.bind (h x) k)
                   end)).
  destruct (observe t); reflexivity.
Qed.

Lemma observe_iter {I R} (body : I -> prog (I + R)) (i : I) :
  observe (ITree.iter body i) =
  observe (ITree.bind (body i) (fun lr => match lr with
                                          | inl l => Tau (ITree.iter body l)
                                          | inr r => Ret r
                                          end)).
Proof. reflexivity. Qed.

Lemma observe_trigger {X} (e : nvmE X) :
  observe (ITree.trigger e) = VisF e (fun x => Ret x).
Proof. reflexivity. Qed.

(** *** Traces of the tree constructors *)

Lemma exec_observe {R} n (t1 t2 : prog R) tr o :
  observe t1 = observe t2 -> exec n t1 tr o -> exec n t2 tr o.
Proof. destruct n; cbn [exec app Nat.add]; intros E; rewrite E; auto. Qed.

Lemma exec_forget {R} n : forall (t : prog R) tr r,
  exec n t tr (Some r) -> exec n t tr None.
Proof.
  induction n as [|n IH]; cbn [exec app Nat.add]; intros t tr r H.
  - destruct H; auto.
  - destruct (observe t) as [r'|t'|X e h]; [exact H|eauto|].
    destruct H as (x & tr' & -> & H). eauto.
Qed.

Lemma exec_ret_inv {R} n (r : R) tr o :
  exec n (Ret r : prog R) tr o -> n = O /\ tr = [] /\ (o = None \/ o = Some r).
Proof.
  destruct n; simpl; [|tauto].
  intros [-> H]. destruct o as [r'|]; auto.
  inversion H; subst; auto.
Qed.

Lemma exec_bind_inv {R U} (k : R -> prog U) n : forall (t : prog R) tr o,
  exec n (ITree.bind t k) tr o ->
  (o = None /\ exec n t tr None) \/
  (exists n1 n2 x tr1 tr2,
      n = (n1 + n2)%nat /\ tr = tr1 ++ tr2 /\
      exec n1 t tr1 (Some x) /\ exec n2 (k x) tr2 o).
Proof.
  induction n as [|n IH]; intros t tr o H.
  - cbn [exec app Nat.add] in H. destruct H as [-> H]. destruct o as [s|].
    + rewrite observe_bind in H. destruct (observe t) as [r|t'|X e h] eqn:E;
        try discriminate.
      right. exists O, O, r, [], []. cbn [exec app Nat.add]. auto.
    + left. cbn [exec app Nat.add]. auto.
  - cbn [exec app Nat.add] in H. rewrite observe_bind in H.
    destruct (observe t) as [r|t'|X e h] eqn:E.
    + right. exists O, (S n), r, [], tr. cbn [exec app Nat.add]. auto.
    + apply IH in H. destruct H as [[-> H]|(n1 & n2 & x & tr1 & tr2 & -> & -> & H1 & H2)].
      * left. split; auto. cbn [exec app Nat.add]. rewrite E. exact H.
      * right. exists (S n1), n2, x, tr1, tr2. cbn [exec app Nat.add]. rewrite E. auto.
    + destruct H as (y & tr' & -> & H). apply IH in H.
      destruct H as [[-> H]|(n1 & n2 & x & tr1 & tr2 & -> & -> & H1 & H2)].
      * left. split; auto. cbn [exec app Nat.add]. rewrite E. eauto.
      * right. exists (S n1), n2, x, (obs_of e y :: tr1), tr2. cbn [exec app Nat.add]. rewrite E.
        repeat split; eauto.
Qed.

Lemma exec_bind_intro {R U} (k : R -> prog U) n1 : forall (t : prog R) tr1 x n2 tr2 o,
  exec n1 t tr1 (Some x) -> exec n2 (k x) tr2 o ->
  exec (n1 + n2) (ITree.bind t k) (tr1 ++ tr2) o.
Proof.
  induction n1 as [|n1 IH]; intros t tr1 x n2 tr2 o H1 H2.
  - cbn [exec app Nat.add] in H1. destruct H1 as [-> E]. cbn [exec app Nat.add].
    eapply exec_observe; [|exact H2]. rewrite observe_bind, E. reflexivity.
  - cbn [exec app Nat.add] in H1. cbn [exec app Nat.add]. rewrite observe_bind.
    destruct (observe t) as [r|t'|X e h]; [contradiction| |].
    + eapply IH; eauto.
    + destruct H1 as (y & tr' & -> & H1). exists y, (tr' ++ tr2). split; auto.
      eapply IH; eauto.
Qed.

Lemma exec_bind_stop {R U} (k : R -> prog U) n : forall (t : prog R) tr,
  exec n t tr None -> exec n (ITree.bind t k) tr None.
Proof.
  induction n as [|n IH]; intros t tr H.
  - cbn [exec app Nat.add] in *. tauto.
  - cbn [exec app Nat.add] in *. rewrite observe_bind.
    destruct (observe t) as [r|t'|X e h]; [contradiction|auto|].
    destruct H as (y & tr' & -> & H). eauto.
Qed.

Lemma exec_iter_inv {I R} (body : I -> prog (I + R)) n : forall i tr o,
  exec n (ITree.iter body i) tr o -> iter_trace body i tr o.
Proof.
  induction n as [n IH] using lt_wf_ind. intros i tr o H.
  apply (exec_observe _ _ _ _ _ (observe_iter body i)) in H.
  apply exec_bind_inv in H.
  destruct H as [[-> H]|(n1 & n2 & x & tr1 & tr2 & -> & -> & H1 & H2)].
  - apply iter_stop. exists n. exact H.
  - destruct x as [i'|r].
    + destruct n2 as [|n2].
      * cbn [exec app Nat.add] in H2. destruct H2 as [-> H2]. rewrite app_nil_r.
        destruct o; [discriminate|].
        apply iter_stop. exists n1. eapply exec_forget; eauto.
      * cbn [exec app Nat.add] in H2. eapply iter_again; [exists n1; exact H1|].
        eapply IH; [|exact H2]. lia.
    + apply exec_ret_inv in H2. destruct H2 as (-> & -> & [-> | ->]);
        rewrite app_nil_r.
      * apply iter_stop. exists n1. eapply exec_forget; eauto.
      * apply iter_last. exists n1. exact H1.
Qed.

Lemma iter_trace_exec {I R} (body : I -> prog (I + R)) i tr o :
  iter_trace body i tr o -> exists n, exec n (ITree.iter body i) tr o.
Proof.
  induction 1 as [i tr [n H]|i tr r [n H]|i i' tr1 tr2 o [n1 H1] _ [n2 IH]].
  - exists n. apply (exec_observe _ _ _ _ _ (eq_sym (observe_iter body i))).
    apply exec_bind_stop. exact H.
  - exists (n + 0)%nat. apply (exec_observe _ _ _ _ _ (eq_sym (observe_iter body i))).
    rewrite <- (app_nil_r tr). eapply exec_bind_intro; eauto.
    cbn [exec app Nat.add]. auto.
  - exists (n1 + S n2)%nat.
    apply (exec_observe _ _ _ _ _ (eq_sym (observe_iter body i))).
    eapply exec_bind_intro; eauto.
Qed.

(** *** Runs and partial traces, without step counts *)

Lemma runs_partial {R} (t : prog R) tr r : runs t tr r -> partial t tr.
Proof. intros [n H]. exists n. eapply exec_forget; eauto. Qed.

Lemma partial_nil {R} (t : prog R) : partial t [].
Proof. exists O. simpl. auto. Qed.

Lemma runs_ret {R} (r r' : R) tr : runs (Ret r) tr r' <-> tr = [] /\ r' = r.
Proof.
  split.
  - intros [n H]. apply exec_ret_inv in H.
    destruct H as (_ & -> & [H|H]); [discriminate|]. inversion H; auto.
  - intros [-> ->]. exists O. simpl. auto.
Qed.

Lemma partial_ret {R} (r : R) tr : partial (Ret r : prog R) tr <-> tr = [].
Proof.
  split.
  - intros [n H]. apply exec_ret_inv in H. tauto.
  - intros ->. apply partial_nil.
Qed.

Lemma runs_trigger {X} (e : nvmE X) tr x :
  runs (ITree.trigger e) tr x <-> tr = [obs_of e x].
Proof.
  split.
  - intros [[|n] H]; simpl in H.
    + destruct H; discriminate.
    + destruct H as (y & tr' & -> & H). apply exec_ret_inv in H.
      destruct H as (_ & -> & [H|H]); [discriminate|]. inversion H; auto.
  - intros ->. exists 1%nat. simpl. exists x, []. auto.
Qed.

Lemma partial_trigger {X} (e : nvmE X) tr :
  partial (ITree.trigger e) tr <-> tr = [] \/ exists x, tr = [obs_of e x].
Proof.
  split.
  - intros [[|n] H]; simpl in H.
    + left. tauto.
    + destruct H as (y & tr' & -> & H). apply exec_ret_inv in H.
      destruct H as (_ & -> & _). right. eauto.
  - intros [->|[x ->]]; [apply partial_nil|].
    eapply runs_partial. apply runs_trigger. reflexivity.
Qed.

Lemma runs_bind {R U} (t : prog R) (k : R -> prog U) tr u :
  runs (ITree.bind t k) tr u <->
  exists x tr1 tr2, tr = tr1 ++ tr2 /\ runs t tr1 x /\ runs (k x) tr2 u.
Proof.
  split.
  - intros [n H]. apply exec_bind_inv in H.
    destruct H as [[H _]|(n1 & n2 & x & tr1 & tr2 & _ & -> & H1 & H2)];
      [discriminate|].
    exists x, tr1, tr2. repeat split; [exists n1|exists n2]; assumption.
  - intros (x & tr1 & tr2 & -> & [n1 H1] & [n2 H2]).
    exists (n1 + n2)%nat. eapply exec_bind_intro; eauto.
Qed.

Lemma partial_bind {R U} (t : prog R) (k : R -> prog U) tr :
  partial (ITree.bind t k) tr <->
  partial t tr \/
  exists x tr1 tr2, tr = tr1 ++ tr2 /\ runs t tr1 x /\ partial (k x) tr2.
Proof.
  split.
  - intros [n H]. apply exec_bind_inv in H.
    destruct H as [[_ H]|(n1 & n2 & x & tr1 & tr2 & _ & -> & H1 & H2)].
    + left. exists n. exact H.
    + right. exists x, tr1, tr2. repeat split; [exists n1|exists n2]; assumption.
  - intros [[n H]|(x & tr1 & tr2 & -> & [n1 H1] & [n2 H2])].
    + exists n. apply exec_bind_stop. exact H.
    + exists (n1 + n2)%nat. eapply exec_bind_intro; eauto.
Qed.

Lemma runs_iter {I R} (body : I -> prog (I + R)) i tr r :
  runs (ITree.iter body i) tr r <-> iter_trace body i tr (Some r).
Proof.
  split.
  - intros [n H]. eapply exec_iter_inv; eauto.
  - apply iter_trace_exec.
Qed.

Lemma partial_iter {I R} (body : I -> prog (I + R)) i tr :
  partial (ITree.iter body i) tr <-> iter_trace body i tr None.
Proof.
  split.
  - intros [n H]. eapply exec_iter_inv; eauto.
  - apply iter_trace_exec.
Qed.

(** A run determines its result type's value only through the tree; two
    consequences used below: sequencing with a unit-valued first part. *)
Lemma runs_seq {U} (t : prog unit) (k : prog U) tr u :
  runs (t;; k) tr u <->
  exists tr1 tr2, tr = tr1 ++ tr2 /\ runs t tr1 tt /\ runs k tr2 u.
Proof.
  rewrite runs_bind. split.
  - intros ([] & tr1 & tr2 & H). eauto.
  - intros (tr1 & tr2 & H). exists tt. eauto.
Qed.

Lemma partial_seq {U} (t : prog unit) (k : prog U) tr :
  partial (t;; k) tr <->
  partial t tr \/ exists tr1 tr2, tr = tr1 ++ tr2 /\ runs t tr1 tt /\ partial k tr2.
Proof.
  rewrite partial_bind. split.
  - intros [H|([] & tr1 & tr2 & H)]; eauto.
  - intros [H|(tr1 & tr2 & H)]; [auto|]. right. exists tt. eauto.
Qed.

(** *** Traces of the statements of the driver *)

Lemma runs_reg_write r v tr :
  runs (ITree.trigger (RegWrite r v)) tr tt <-> tr = [OWrite r v].
Proof. apply runs_trigger. Qed.

Lemma runs_reg_set_bits r m tr :
  runs (reg_set_bits r m) tr tt <-> exists v, tr = [ORead r v; OWrite r (Z.lor v m)].
Proof.
  unfold reg_set_bits. rewrite runs_bind. split.
  - intros (v & tr1 & tr2 & -> & H1 & H2).
    apply runs_trigger in H1. apply runs_trigger in H2. subst.
    exists v. reflexivity.
  - intros [v ->]. exists v, [ORead r v], [OWrite r (Z.lor v m)].
    repeat split; apply runs_trigger; reflexivity.
Qed.

Lemma runs_reg_clear_bits r m tr :
  runs (reg_clear_bits r m) tr tt <->
  exists v, tr = [ORead r v; OWrite r (Z.land v (wrap32 (Z.lnot m)))].
Proof.
  unfold reg_clear_bits. rewrite runs_bind. split.
  - intros (v & tr1 & tr2 & -> & H1 & H2).
    apply runs_trigger in H1. apply runs_trigger in H2. subst.
    exists v. reflexivity.
  - intros [v ->]. exists v, [ORead r v], [OWrite r (Z.land v (wrap32 (Z.lnot m)))].
    repeat split; apply runs_trigger; reflexivity.
Qed.

Lemma runs_poll_sr test tr b :
  runs (poll_sr test) tr b <-> exists s, tr = [ORead SR s] /\ b = test s.
Proof.
  unfold poll_sr. rewrite runs_bind. split.
  - intros (s & tr1 & tr2 & -> & H1 & H2).
    apply runs_trigger in H1. apply runs_ret in H2. destruct H2 as [-> ->].
    subst. exists s. split; reflexivity.
  - intros (s & -> & ->). exists s, [ORead SR s], [].
    repeat split; [apply runs_trigger|apply runs_ret]; auto.
Qed.

Lemma partial_poll_sr test tr :
  partial (poll_sr test) tr <-> tr = [] \/ exists s, tr = [ORead SR s].
Proof.
  unfold poll_sr. rewrite partial_bind. split.
  - intros [H|(s & tr1 & tr2 & -> & H1 & H2)].
    + apply partial_trigger in H. exact H.
    + apply runs_trigger in H1. apply partial_ret in H2. subst. right.
      exists s. reflexivity.
  - intros [->|[s ->]]; [left; apply partial_nil|].
    right. exists s, [ORead SR s], []. repeat split;
      [apply runs_trigger|apply partial_ret]; auto.
Qed.

Lemma runs_while_body test tr (lr : unit + unit) :
  runs (while_body (poll_sr test) tt) tr lr <->
  exists s, tr = [ORead SR s] /\ lr = if test s then inl tt else inr tt.
Proof.
  unfold while_body. rewrite runs_bind. split.
  - intros (b & tr1 & tr2 & -> & H1 & H2).
    apply runs_poll_sr in H1. destruct H1 as (s & -> & ->).
    apply runs_ret in H2. destruct H2 as [-> ->]. exists s. split; reflexivity.
  - intros (s & -> & ->). exists (test s), [ORead SR s], [].
    repeat split; [apply runs_poll_sr|apply runs_ret]; eauto.
Qed.

Lemma while_trace_inv test tr o :
  iter_trace (while_body (poll_sr test)) tt tr o ->
  exists ss, Forall (fun s => test s = true) ss /\
    match o with
    | Some _ => exists s, test s = false /\ tr = polls ss ++ [ORead SR s]
    | None => tr = polls ss \/ exists s, test s = false /\ tr = polls ss ++ [ORead SR s]
    end.
Proof.
  induction 1 as [[] tr H|[] tr [] H|[] [] tr1 tr2 o H _ IH].
  - unfold while_body in H. apply partial_bind in H.
    destruct H as [H|(b & tr1 & tr2 & -> & H1 & H2)].
    + apply partial_poll_sr in H. destruct H as [->|[s ->]].
      * exists []. split; [constructor|]. left. reflexivity.
      * destruct (test s) eqn:E.
        -- exists [s]. split; [constructor; auto|]. left. reflexivity.
        -- exists []. split; [constructor|]. right. eauto.
    + apply runs_poll_sr in H1. destruct H1 as (s & -> & ->).
      apply partial_ret in H2. subst tr2.
      destruct (test s) eqn:E.
      * exists [s]. split; [constructor; auto|]. left. reflexivity.
      * exists []. split; [constructor|]. right. eauto.
  - apply runs_while_body in H. destruct H as (s & -> & E).
    destruct (test s) eqn:T; [discriminate|].
    exists []. split; [constructor|]. eauto.
  - apply runs_while_body in H. destruct H as (s & -> & E).
    destruct (test s) eqn:T; [|discriminate].
    destruct IH as (ss & F & IH). exists (s :: ss). split; [constructor; auto|].
    destruct o as [u|].
    + destruct IH as (s' & T' & ->). eauto.
    + destruct IH as [->|(s' & T' & ->)]; [left; reflexivity|right; eauto].
Qed.

Lemma runs_while_poll test tr :
  runs (while_ (poll_sr test)) tr tt <->
  exists ss s, tr = polls ss ++ [ORead SR s] /\
               Forall (fun x => test x = true) ss /\ test s = false.
Proof.
  unfold while_. fold (while_body (poll_sr test)). rewrite runs_iter. split.
  - intros H. apply while_trace_inv in H. destruct H as (ss & F & s & T & ->). eauto.
  - intros (ss & s & -> & F & T). induction F as [|x ss Tx F IH].
    + apply iter_last. apply runs_while_body. exists s. rewrite T. auto.
    + change (polls (x :: ss) ++ [ORead SR s])
        with ([ORead SR x] ++ (polls ss ++ [ORead SR s])).
      eapply iter_again; [|exact IH].
      apply runs_while_body. exists x. rewrite Tx. auto.
Qed.

Lemma partial_while_poll test ss :
  Forall (fun x => test x = true) ss -> partial (while_ (poll_sr test)) (polls ss).
Proof.
  unfold while_. fold (while_body (poll_sr test)). rewrite partial_iter.
  induction 1 as [|x ss Tx F IH].
  - apply iter_stop. apply partial_nil.
  - change (polls (x :: ss)) with ([ORead SR x] ++ polls ss).
    eapply iter_again; [|exact IH].
    apply runs_while_body. exists x. rewrite Tx. auto.
Qed.

Lemma runs_burst_body addr p h i tr lr :
  runs (burst_body addr p h i) tr lr <->
  if i <? 16
  then exists w, tr = [OBuf (32 * p + 16 * h + i) w; OMem addr w] /\ lr = inl (wrap8 (i + 1))
  else tr = [] /\ lr = inr tt.
Proof.
  unfold burst_body. destruct (i <? 16).
  - rewrite runs_bind. split.
    + intros (w & tr1 & tr2 & -> & H1 & H2). apply runs_trigger in H1.
      apply runs_seq in H2. destruct H2 as (tr3 & tr4 & -> & H2 & H3).
      apply runs_trigger in H2. apply runs_ret in H3. destruct H3 as [-> ->].
      subst. exists w. split; reflexivity.
    + intros (w & -> & ->).
      exists w, [OBuf (32 * p + 16 * h + i) w], [OMem addr w].
      repeat split; [apply runs_trigger; reflexivity|].
      apply runs_seq. exists [OMem addr w], [].
      repeat split; [apply runs_trigger|apply runs_ret]; auto.
  - apply runs_ret.
Qed.

Lemma runs_burst_loop addr p h (k : nat) : forall i tr,
  Z.of_nat k = 16 - i -> (k <= 16)%nat ->
  runs (burst_loop addr p h i) tr tt <->
  exists ws, List.length ws = k /\ tr = burst_trace addr (32 * p + 16 * h + i) ws.
Proof.
  unfold burst_loop.
  induction k as [|k IH]; intros i tr Hi Hk; rewrite runs_iter.
  - assert (E : (i <? 16) = false) by (apply Z.ltb_ge; lia).
    split.
    + intros H. inversion H as [|? ? ? H1|? i' tr1 tr2 ? H1 H2]; subst;
        apply runs_burst_body in H1; rewrite E in H1.
      * destruct H1 as [-> _]. exists []. auto.
      * destruct H1; discriminate.
    + intros (ws & L & ->). destruct ws; [|discriminate].
      apply iter_last. apply runs_burst_body. rewrite E. auto.
  - assert (E : (i <? 16) = true) by (apply Z.ltb_lt; lia).
    assert (W : wrap8 (i + 1) = i + 1)
      by (unfold wrap8; apply Z.mod_small; lia).
    split.
    + intros H. inversion H as [|? ? ? H1|? i' tr1 tr2 ? H1 H2]; subst;
        apply runs_burst_body in H1; rewrite E in H1.
      * destruct H1 as (w & _ & D). discriminate.
      * destruct H1 as (w & -> & D). injection D as ->.
        apply runs_iter in H2. rewrite W in H2.
        apply IH in H2; [|lia|lia]. destruct H2 as (ws & L & ->).
        exists (w :: ws). split; [simpl; congruence|].
        simpl. rewrite Z.add_assoc. reflexivity.
    + intros (ws & L & ->). destruct ws as [|w ws]; [discriminate|].
      change (burst_trace addr (32 * p + 16 * h + i) (w :: ws))
        with ([OBuf (32 * p + 16 * h + i) w; OMem addr w]
                ++ burst_trace addr (32 * p + 16 * h + i + 1) ws).
      eapply iter_again.
      * apply runs_burst_body. rewrite E. eauto.
      * apply runs_iter. rewrite W. apply IH; [lia|lia|].
        exists ws. split; [simpl in L; congruence|].
        rewrite Z.add_assoc. reflexivity.
Qed.

(** *** The completion wait *)

Lemma Forall_negb_true (f : Z -> bool) l :
  Forall (fun s => negb (f s) = true) l <-> Forall (fun s => f s = false) l.
Proof.
  split; intros H; induction H; constructor; auto;
    destruct (f x); simpl in *; congruence.
Qed.

Ltac trace_eq :=
  cbn [app]; repeat (rewrite <- app_assoc; cbn [app]); reflexivity.

Lemma runs_wait {U} (k : prog U) tr u :
  runs (while_ poll_busy;; while_ poll_not_eop;; reg_set_bits SR (BIT 1);; k) tr u <->
  exists w tr', wait_ok w /\ tr = wait_trace w ++ tr' /\ runs k tr' u.
Proof.
  unfold poll_busy, poll_not_eop. split.
  - intros H.
    apply runs_seq in H. destruct H as (t1 & r1 & -> & H1 & H).
    apply runs_seq in H. destruct H as (t2 & r2 & -> & H2 & H).
    apply runs_seq in H. destruct H as (t3 & r3 & -> & H3 & H).
    apply runs_while_poll in H1. destruct H1 as (bs & s0 & -> & F1 & T1).
    apply runs_while_poll in H2. destruct H2 as (ps & s1 & -> & F2 & T2).
    apply runs_reg_set_bits in H3. destruct H3 as (s2 & ->).
    exists (WaitAnswers bs s0 ps s1 s2), r3. repeat split; simpl; auto.
    + apply Forall_negb_true. exact F2.
    + destruct (sr_eop s1); simpl in T2; congruence.
    + unfold wait_trace. cbn [wa_busy wa_idle wa_pending wa_done wa_ack]. trace_eq.
  - intros ([bs s0 ps s1 s2] & tr' & (F1 & T1 & F2 & T2) & -> & H). simpl in *.
    apply runs_seq. exists (polls bs ++ [ORead SR s0]),
      ((polls ps ++ [ORead SR s1]) ++ [ORead SR s2; OWrite SR (Z.lor s2 (BIT 1))] ++ tr').
    split; [unfold wait_trace; cbn [wa_busy wa_idle wa_pending wa_done wa_ack]; trace_eq|].
    split; [apply runs_while_poll; eauto|].
    apply runs_seq. eexists _, _. split; [reflexivity|].
    split.
    + apply runs_while_poll. exists ps, s1. repeat split.
      * apply Forall_negb_true. exact F2.
      * rewrite T2. reflexivity.
    + apply runs_seq. eexists _, _. split; [reflexivity|].
      split; [apply runs_reg_set_bits; eauto|exact H].
Qed.

(** *** The traces of the driver's functions *)

Lemma runs_seq_app {U} (t : prog unit) (k : prog U) tr1 tr2 u :
  runs t tr1 tt -> runs k tr2 u -> runs (t;; k) (tr1 ++ tr2) u.
Proof. intros H1 H2. apply runs_seq. eauto. Qed.

Lemma runs_unlock {U} (k : prog U) tr u :
  runs k tr u ->
  runs (ITree.trigger (RegWrite PEKEYR PEKEY1);;
        ITree.trigger (RegWrite PEKEYR PEKEY2);;
        ITree.trigger (RegWrite PRGKEYR PRGKEY1);;
        ITree.trigger (RegWrite PRGKEYR PRGKEY2);; k) (unlock_obs ++ tr) u.
Proof.
  intros H.
  apply (runs_seq_app _ _ [OWrite PEKEYR PEKEY1]); [apply runs_trigger; reflexivity|].
  apply (runs_seq_app _ _ [OWrite PEKEYR PEKEY2]); [apply runs_trigger; reflexivity|].
  apply (runs_seq_app _ _ [OWrite PRGKEYR PRGKEY1]); [apply runs_trigger; reflexivity|].
  apply (runs_seq_app _ _ [OWrite PRGKEYR PRGKEY2]); [apply runs_trigger; reflexivity|].
  exact H.
Qed.

Lemma runs_set_obs r m v : runs (reg_set_bits r m) (set_obs r m v) tt.
Proof. apply runs_reg_set_bits. exists v. reflexivity. Qed.

Lemma runs_clear_obs r m v : runs (reg_clear_bits r m) (clear_obs r m v) tt.
Proof. apply runs_reg_clear_bits. exists v. reflexivity. Qed.

(** Splitting the run of [s;; k] and naming the run of the statement [s]. *)
Ltac run_split H S :=
  let t1 := fresh "t" in
  let t2 := fresh "t" in
  apply runs_seq in H; destruct H as (t1 & t2 & -> & S & H).

Ltac run_event H :=
  let S := fresh "S" in
  run_split H S; apply runs_trigger in S; cbn [obs_of] in S; subst.

Ltac run_set H v :=
  let S := fresh "S" in
  run_split H S; apply runs_reg_set_bits in S; destruct S as (v & ->).

Ltac run_clear H v :=
  let S := fresh "S" in
  run_split H S; apply runs_reg_clear_bits in S; destruct S as (v & ->).

Lemma runs_NVM_Init tr :
  runs NVM_Init tr tt <-> exists v1 v2 v3, tr = init_trace v1 v2 v3.
Proof.
  unfold NVM_Init, init_trace. split.
  - intros H. run_event H. run_event H. run_clear H v1. run_set H v2.
    apply runs_reg_set_bits in H. destruct H as (v3 & ->).
    exists v1, v2, v3. reflexivity.
  - intros (v1 & v2 & v3 & ->).
    apply (runs_seq_app _ _ [OWrite PEKEYR PEKEY1]); [apply runs_trigger; reflexivity|].
    apply (runs_seq_app _ _ [OWrite PEKEYR PEKEY2]); [apply runs_trigger; reflexivity|].
    apply runs_seq_app; [apply runs_clear_obs|].
    apply runs_seq_app; [apply runs_set_obs|]. apply runs_set_obs.
Qed.

Lemma runs_FLASHErase_Page a tr :
  runs (FLASHErase_Page a) tr tt <->
  exists v1 v2 w v3, wait_ok w /\ tr = erase_trace a v1 v2 w v3.
Proof.
  unfold FLASHErase_Page, erase_trace. split.
  - intros H. do 4 run_event H. run_set H v1. run_set H v2. run_event H.
    apply runs_wait in H. destruct H as (w & tr' & Hw & -> & H).
    apply runs_reg_set_bits in H. destruct H as (v3 & ->).
    exists v1, v2, w, v3. split; [exact Hw|reflexivity].
  - intros (v1 & v2 & w & v3 & Hw & ->).
    apply runs_unlock.
    apply runs_seq_app; [apply runs_set_obs|].
    apply runs_seq_app; [apply runs_set_obs|].
    apply runs_seq_app; [apply runs_trigger; reflexivity|].
    apply runs_wait. exists w, (set_obs PECR (BIT 0) v3).
    repeat split; [apply Hw..|apply runs_set_obs].
Qed.

Lemma runs_FLASHUpd_Word a x tr :
  runs (FLASHUpd_Word a x) tr tt <->
  exists w v, wait_ok w /\ tr = word_trace a x w v.
Proof.
  unfold FLASHUpd_Word, word_trace. split.
  - intros H. do 5 run_event H.
    apply runs_wait in H. destruct H as (w & tr' & Hw & -> & H).
    apply runs_reg_set_bits in H. destruct H as (v & ->).
    exists w, v. split; [exact Hw|reflexivity].
  - intros (w & v & Hw & ->).
    apply runs_unlock.
    apply runs_seq_app; [apply runs_trigger; reflexivity|].
    apply runs_wait. exists w, (set_obs PECR (BIT 0) v).
    repeat split; [apply Hw..|apply runs_set_obs].
Qed.

Lemma runs_FLASHUpd_HalfPage a p h tr :
  runs (FLASHUpd_HalfPage a p h) tr tt <->
  exists v1 v2 ws w v3 v4 v5,
    List.length ws = 16%nat /\ wait_ok w /\
    tr = halfpage_trace a p h v1 v2 ws w v3 v4 v5.
Proof.
  unfold FLASHUpd_HalfPage, halfpage_trace. split.
  - intros H. do 4 run_event H. run_set H v1. run_set H v2. run_event H.
    apply runs_seq in H. destruct H as (t1 & t2 & -> & S & H).
    apply (runs_burst_loop a p h 16) in S; [|reflexivity|lia].
    destruct S as (ws & L & ->). rewrite Z.add_0_r.
    apply runs_wait in H. destruct H as (w & tr' & Hw & -> & H).
    run_clear H v3. run_clear H v4. run_set H v5.
    apply runs_trigger in H. subst.
    exists v1, v2, ws, w, v3, v4, v5.
    split; [exact L|]. split; [exact Hw|reflexivity].
  - intros (v1 & v2 & ws & w & v3 & v4 & v5 & L & Hw & ->).
    apply runs_unlock.
    apply runs_seq_app; [apply runs_set_obs|].
    apply runs_seq_app; [apply runs_set_obs|].
    apply runs_seq_app; [apply runs_trigger; reflexivity|].
    apply runs_seq_app.
    { apply (runs_burst_loop a p h 16); [reflexivity|lia|].
      exists ws. rewrite Z.add_0_r. auto. }
    apply runs_wait. eexists w, _. split; [exact Hw|]. split; [reflexivity|].
    apply runs_seq_app; [apply runs_clear_obs|].
    apply runs_seq_app; [apply runs_clear_obs|].
    apply runs_seq_app; [apply runs_set_obs|].
    apply runs_trigger. reflexivity.
Qed.

(** ** Projections of a trace *)

Lemma buf_loads_app l1 l2 : buf_loads (l1 ++ l2) = buf_loads l1 ++ buf_loads l2.
Proof. apply flat_map_app. Qed.

Lemma mem_stores_app l1 l2 : mem_stores (l1 ++ l2) = mem_stores l1 ++ mem_stores l2.
Proof. apply flat_map_app. Qed.

Lemma sr_accesses_app l1 l2 : sr_accesses (l1 ++ l2) = sr_accesses l1 ++ sr_accesses l2.
Proof. apply filter_app. Qed.

Lemma buf_loads_polls ss : buf_loads (polls ss) = [].
Proof. induction ss; simpl; auto. Qed.

Lemma mem_stores_polls ss : mem_stores (polls ss) = [].
Proof. induction ss; simpl; auto. Qed.

Lemma sr_accesses_polls ss : sr_accesses (polls ss) = polls ss.
Proof. induction ss; simpl; congruence. Qed.

Lemma buf_loads_wait w : buf_loads (wait_trace w) = [].
Proof.
  unfold wait_trace. rewrite buf_loads_app, buf_loads_polls. simpl.
  rewrite buf_loads_app, buf_loads_polls. reflexivity.
Qed.

Lemma mem_stores_wait w : mem_stores (wait_trace w) = [].
Proof.
  unfold wait_trace. rewrite mem_stores_app, mem_stores_polls. simpl.
  rewrite mem_stores_app, mem_stores_polls. reflexivity.
Qed.

Lemma sr_accesses_wait w : sr_accesses (wait_trace w) = wait_trace w.
Proof.
  unfold wait_trace. rewrite sr_accesses_app, sr_accesses_polls. simpl.
  rewrite sr_accesses_app, sr_accesses_polls. reflexivity.
Qed.

Lemma buf_loads_burst a ws : forall idx,
  buf_loads (burst_trace a idx ws) = indexed idx ws.
Proof. induction ws as [|w ws IH]; intros idx; simpl; [|rewrite IH]; reflexivity. Qed.

Lemma mem_stores_burst a ws : forall idx,
  mem_stores (burst_trace a idx ws) = map (fun w => (a, w)) ws.
Proof. induction ws as [|w ws IH]; intros idx; simpl; [|rewrite IH]; reflexivity. Qed.

Lemma sr_accesses_burst a ws : forall idx, sr_accesses (burst_trace a idx ws) = [].
Proof. induction ws as [|w ws IH]; intros idx; simpl; auto. Qed.

Lemma indexed_nth ws : forall idx i d,
  (i < List.length ws)%nat ->
  nth i (indexed idx ws) d = (idx + Z.of_nat i, nth i ws (snd d)).
Proof.
  induction ws as [|w ws IH]; intros idx i d Hi; simpl in *; [lia|].
  destruct i as [|i].
  - f_equal. lia.
  - rewrite IH by lia. f_equal. lia.
Qed.

(** ** An example run of each function *)

Lemma example_wait_ok : wait_ok example_wait.
Proof. unfold wait_ok, example_wait; simpl. repeat constructor. Qed.

Lemma example_erase_runs : runs (FLASHErase_Page 0x08003000) example_erase_run tt.
Proof.
  apply runs_FLASHErase_Page. exists 4, 0x204, example_wait, 0x20C.
  split; [apply example_wait_ok|reflexivity].
Qed.

Lemma example_word_runs :
  runs (FLASHUpd_Word 0x08003000 0xDEADBEEF) example_word_run tt.
Proof.
  apply runs_FLASHUpd_Word. exists example_wait, 4.
  split; [apply example_wait_ok|reflexivity].
Qed.

Lemma example_halfpage_runs :
  runs (FLASHUpd_HalfPage 0x08003000 0 0) example_halfpage_run tt.
Proof.
  apply runs_FLASHUpd_HalfPage.
  exists 4, 0xC, example_words, example_wait, 0x40C, 0x404, 4.
  split; [reflexivity|]. split; [apply example_wait_ok|reflexivity].
Qed.

(** ** Bits of the status and control registers *)

Lemma BIT_pow2 n : 0 <= n -> BIT n = 2 ^ n.
Proof. intros. unfold BIT. apply Z.shiftl_1_l. Qed.

Lemma land_BIT s n :
  0 <= n -> Z.land s (BIT n) = if Z.testbit s n then BIT n else 0.
Proof.
  intros Hn. rewrite BIT_pow2 by exact Hn. apply Z.bits_inj'. intros m Hm.
  rewrite Z.land_spec, Z.pow2_bits_eqb by exact Hn.
  destruct (Z.eqb_spec n m) as [->|Hne].
  - destruct (Z.testbit s m); simpl.
    + rewrite Z.pow2_bits_true; auto.
    + apply eq_sym, Z.bits_0.
  - rewrite andb_false_r. destruct (Z.testbit s n).
    + rewrite Z.pow2_bits_false; auto.
    + apply eq_sym, Z.bits_0.
Qed.

Lemma BIT_test s n : 0 <= n -> (Z.land s (BIT n) =? BIT n) = Z.testbit s n.
Proof.
  intros Hn. rewrite land_BIT by exact Hn.
  assert (0 < BIT n) by (rewrite BIT_pow2 by exact Hn; apply Z.pow_pos_nonneg; lia).
  destruct (Z.testbit s n).
  - apply Z.eqb_refl.
  - apply Z.eqb_neq. lia.
Qed.

Lemma sr_busy_bit s : sr_busy s = Z.testbit s 0.
Proof. apply BIT_test. lia. Qed.

Lemma sr_eop_bit s : sr_eop s = Z.testbit s 1.
Proof. apply BIT_test. lia. Qed.

Lemma testbit_set_bits v n m :
  0 <= n -> 0 <= m -> Z.testbit (Z.lor v (BIT n)) m = Z.testbit v m || (n =? m).
Proof.
  intros Hn Hm. rewrite Z.lor_spec, BIT_pow2, Z.pow2_bits_eqb by exact Hn.
  reflexivity.
Qed.

Lemma testbit_wrap32 z m :
  0 <= m -> Z.testbit (wrap32 z) m = (m <? 32) && Z.testbit z m.
Proof.
  intros Hm. unfold wrap32. destruct (Z.ltb_spec m 32).
  - rewrite Z.mod_pow2_bits_low by lia. reflexivity.
  - rewrite Z.mod_pow2_bits_high by lia. reflexivity.
Qed.

Lemma testbit_clear_bits v n m :
  0 <= n -> 0 <= m ->
  Z.testbit (Z.land v (wrap32 (Z.lnot (BIT n)))) m
  = Z.testbit v m && ((m <? 32) && negb (n =? m)).
Proof.
  intros Hn Hm.
  rewrite Z.land_spec, testbit_wrap32, Z.lnot_spec, BIT_pow2, Z.pow2_bits_eqb
    by assumption.
  reflexivity.
Qed.

(** ** The mutating operations *)

Lemma run_op_shape op tr :
  runs (run_op op) tr tt <->
  exists v1 v2 ws w cl1 cl2 lk,
    List.length ws = 16%nat /\ wait_ok w /\
    tr = before_wait op v1 v2 ws ++ wait_trace w ++ after_wait op cl1 cl2 lk.
Proof.
  destruct op as [a|a x|a p h]; simpl.
  - rewrite runs_FLASHErase_Page. unfold erase_trace. split.
    + intros (v1 & v2 & w & v3 & Hw & ->).
      exists v1, v2, example_words, w, 0, 0, v3.
      split; [reflexivity|]. split; [exact Hw|]. trace_eq.
    + intros (v1 & v2 & ws & w & cl1 & cl2 & lk & _ & Hw & ->).
      exists v1, v2, w, lk. split; [exact Hw|]. trace_eq.
  - rewrite runs_FLASHUpd_Word. unfold word_trace. split.
    + intros (w & v & Hw & ->).
      exists 0, 0, example_words, w, 0, 0, v.
      split; [reflexivity|]. split; [exact Hw|]. trace_eq.
    + intros (v1 & v2 & ws & w & cl1 & cl2 & lk & _ & Hw & ->).
      exists w, lk. split; [exact Hw|]. trace_eq.
  - rewrite runs_FLASHUpd_HalfPage. unfold halfpage_trace. split.
    + intros (v1 & v2 & ws & w & v3 & v4 & v5 & L & Hw & ->).
      exists v1, v2, ws, w, v3, v4, v5.
      split; [exact L|]. split; [exact Hw|]. trace_eq.
    + intros (v1 & v2 & ws & w & cl1 & cl2 & lk & L & Hw & ->).
      exists v1, v2, ws, w, cl1, cl2, lk.
      split; [exact L|]. split; [exact Hw|]. trace_eq.
Qed.

Lemma sr_accesses_before op v1 v2 ws : sr_accesses (before_wait op v1 v2 ws) = [].
Proof.
  destruct op; simpl; auto.
  apply sr_accesses_burst.
Qed.

Lemma sr_accesses_after op cl1 cl2 lk : sr_accesses (after_wait op cl1 cl2 lk) = [].
Proof. destruct op; reflexivity. Qed.

Lemma mem_stores_after op cl1 cl2 lk : mem_stores (after_wait op cl1 cl2 lk) = [].
Proof. destruct op; reflexivity. Qed.

Lemma mem_stores_before op v1 v2 ws :
  List.length ws = 16%nat -> mem_stores (before_wait op v1 v2 ws) <> [].
Proof.
  intros L. destruct op; simpl; try discriminate.
  rewrite mem_stores_burst. destruct ws; [discriminate L|discriminate].
Qed.

Lemma wait_trace_last w d :
  last (wait_trace w) d = OWrite SR (Z.lor (wa_ack w) (BIT 1)).
Proof.
  unfold wait_trace.
  replace (polls (wa_busy w) ++ ORead SR (wa_idle w) ::
           polls (wa_pending w) ++ ORead SR (wa_done w) ::
           [ORead SR (wa_ack w); OWrite SR (Z.lor (wa_ack w) (BIT 1))])
    with ((polls (wa_busy w) ++ ORead SR (wa_idle w) ::
           polls (wa_pending w) ++ [ORead SR (wa_done w); ORead SR (wa_ack w)])
          ++ [OWrite SR (Z.lor (wa_ack w) (BIT 1))]).
  - apply last_last.
  - rewrite <- app_assoc. cbn [app]. rewrite <- app_assoc. reflexivity.
Qed.

Lemma wait_ok_bits w :
  wait_ok w ->
  Forall (fun s => Z.testbit s 0 = true) (wa_busy w) /\
  Z.testbit (wa_idle w) 0 = false /\
  Forall (fun s => Z.testbit s 1 = false) (wa_pending w) /\
  Z.testbit (wa_done w) 1 = true.
Proof.
  intros (F1 & T1 & F2 & T2). repeat split.
  - eapply Forall_impl; [|exact F1]. intros s E. rewrite <- sr_busy_bit. exact E.
  - rewrite <- sr_busy_bit. exact T1.
  - eapply Forall_impl; [|exact F2]. intros s E. rewrite <- sr_eop_bit. exact E.
  - rewrite <- sr_eop_bit. exact T2.
Qed.

(** ** The completion wait of the mutating operations *)

(** C2.  Every run of [FLASHErase_Page], [FLASHUpd_Word] and
    [FLASHUpd_HalfPage] that returns splits as [pre ++ wait_trace w ++ post]:
    the stores to flash are all in [pre], the accesses to [SR] are exactly
    those of the wait, and the wait is, in this order, the loads on which
    the busy flag (bit 0) was set, one load on which it was clear, the
    loads on which the completion flag (bit 1) was clear, one load on which
    it was set, and the read-modify-write that stores a 1 in bit 1; that
    store is the last access to [SR] of the run. *)
Theorem completion_wait_order (op : mutating_op) (tr : trace) :
  runs (run_op op) tr tt ->
  exists (pre : trace) (w : wait_answers) (post : trace),
    tr = pre ++ wait_trace w ++ post /\
    mem_stores pre <> [] /\ sr_accesses pre = [] /\
    mem_stores post = [] /\ sr_accesses post = [] /\
    Forall (fun s => Z.testbit s 0 = true) (wa_busy w) /\
    Z.testbit (wa_idle w) 0 = false /\
    Forall (fun s => Z.testbit s 1 = false) (wa_pending w) /\
    Z.testbit (wa_done w) 1 = true /\
    last (sr_accesses tr) OIrqOn = OWrite SR (Z.lor (wa_ack w) (BIT 1)) /\
    Z.testbit (Z.lor (wa_ack w) (BIT 1)) 1 = true.
Proof.
  intros H. apply run_op_shape in H.
  destruct H as (v1 & v2 & ws & w & cl1 & cl2 & lk & L & Hw & ->).
  exists (before_wait op v1 v2 ws), w, (after_wait op cl1 cl2 lk).
  split; [reflexivity|].
  split; [apply mem_stores_before; exact L|].
  split; [apply sr_accesses_before|].
  split; [apply mem_stores_after|].
  split; [apply sr_accesses_after|].
  destruct (wait_ok_bits w Hw) as (B1 & B2 & B3 & B4).
  do 4 (split; [assumption|]).
  split.
  - rewrite !sr_accesses_app, sr_accesses_before, sr_accesses_after,
      sr_accesses_wait, app_nil_r. apply wait_trace_last.
  - rewrite testbit_set_bits by lia. apply orb_true_r.
Qed.

Lemma completion_wait_order_witness :
  runs (run_op (ErasePage 0x08003000)) example_erase_run tt /\
  exists (pre : trace) (w : wait_answers) (post : trace),
    example_erase_run = pre ++ wait_trace w ++ post /\
    mem_stores pre <> [] /\ sr_accesses pre = [] /\
    mem_stores post = [] /\ sr_accesses post = [] /\
    Forall (fun s => Z.testbit s 0 = true) (wa_busy w) /\
    Z.testbit (wa_idle w) 0 = false /\
    Forall (fun s => Z.testbit s 1 = false) (wa_pending w) /\
    Z.testbit (wa_done w) 1 = true /\
    last (sr_accesses example_erase_run) OIrqOn
      = OWrite SR (Z.lor (wa_ack w) (BIT 1)) /\
    Z.testbit (Z.lor (wa_ack w) (BIT 1)) 1 = true.
Proof.
  split; [exact example_erase_runs|].
  apply (completion_wait_order (ErasePage 0x08003000) example_erase_run).
  exact example_erase_runs.
Defined.

(** ** Executions that stay in the completion wait *)

Lemma partial_seq_app {U} (t : prog unit) (k : prog U) tr1 tr2 :
  runs t tr1 tt -> partial k tr2 -> partial (t;; k) (tr1 ++ tr2).
Proof. intros H1 H2. apply partial_seq. right. eauto. Qed.

Lemma partial_seq_stop {U} (t : prog unit) (k : prog U) tr :
  partial t tr -> partial (t;; k) tr.
Proof. intros H. apply partial_seq. auto. Qed.

Lemma partial_unlock {U} (k : prog U) tr :
  partial k tr ->
  partial (ITree.trigger (RegWrite PEKEYR PEKEY1);;
           ITree.trigger (RegWrite PEKEYR PEKEY2);;
           ITree.trigger (RegWrite PRGKEYR PRGKEY1);;
           ITree.trigger (RegWrite PRGKEYR PRGKEY2);; k) (unlock_obs ++ tr).
Proof.
  intros H.
  apply (partial_seq_app _ _ [OWrite PEKEYR PEKEY1]); [apply runs_trigger; reflexivity|].
  apply (partial_seq_app _ _ [OWrite PEKEYR PEKEY2]); [apply runs_trigger; reflexivity|].
  apply (partial_seq_app _ _ [OWrite PRGKEYR PRGKEY1]); [apply runs_trigger; reflexivity|].
  apply (partial_seq_app _ _ [OWrite PRGKEYR PRGKEY2]); [apply runs_trigger; reflexivity|].
  exact H.
Qed.

Lemma partial_wait_busy {U} (k : prog U) bs :
  Forall (fun s => sr_busy s = true) bs -> partial (wait_then k) (polls bs).
Proof.
  intros F. apply partial_seq_stop. apply partial_while_poll. exact F.
Qed.

Lemma partial_wait_pending {U} (k : prog U) s0 ps :
  sr_busy s0 = false -> Forall (fun s => sr_eop s = false) ps ->
  partial (wait_then k) (ORead SR s0 :: polls ps).
Proof.
  intros T F. unfold wait_then.
  apply (partial_seq_app _ _ [ORead SR s0]).
  - apply runs_while_poll. exists [], s0. repeat split; auto.
  - apply partial_seq_stop. apply partial_while_poll.
    apply Forall_negb_true. exact F.
Qed.

Lemma partial_op_in_wait op v1 v2 ws tr' :
  List.length ws = 16%nat ->
  (forall k : prog unit, partial (wait_then k) tr') ->
  partial (run_op op) (before_wait op v1 v2 ws ++ tr').
Proof.
  intros L H. unfold wait_then in H.
  destruct op as [a|a x|a p h]; cbn [run_op before_wait];
    rewrite <- ?app_assoc; apply partial_unlock.
  - apply partial_seq_app; [apply runs_set_obs|].
    apply partial_seq_app; [apply runs_set_obs|].
    apply partial_seq_app; [apply runs_trigger; reflexivity|]. apply H.
  - apply partial_seq_app; [apply runs_trigger; reflexivity|]. apply H.
  - apply partial_seq_app; [apply runs_set_obs|].
    apply partial_seq_app; [apply runs_set_obs|].
    apply partial_seq_app; [apply runs_trigger; reflexivity|].
    apply partial_seq_app; [|apply H].
    apply (runs_burst_loop a p h 16); [reflexivity|lia|].
    exists ws. rewrite Z.add_0_r. auto.
Qed.

Lemma in_sr_accesses s tr : In (ORead SR s) tr -> In (ORead SR s) (sr_accesses tr).
Proof. intros H. apply filter_In. auto. Qed.

Lemma in_polls s ss : In (ORead SR s) (polls ss) -> In s ss.
Proof.
  unfold polls. rewrite in_map_iff. intros (x & E & H). congruence.
Qed.

(** C8.  No mutating operation has a timeout.  No execution in which every
    load of [SR] shows the busy flag set, or in which every load of [SR]
    shows the completion flag clear, returns; and the waits go on polling:
    for every [n] there is an execution of the operation, still running,
    that has loaded [SR] at least [n] times with the busy flag set each
    time (resp. with the completion flag clear each time). *)
Theorem mutating_ops_have_no_timeout (op : mutating_op) :
  (forall tr, never_idle tr \/ never_done tr -> ~ runs (run_op op) tr tt) /\
  (forall n : nat, exists tr,
      partial (run_op op) tr /\ never_idle tr /\
      (n <= List.length (sr_accesses tr))%nat) /\
  (forall n : nat, exists tr,
      partial (run_op op) tr /\ never_done tr /\
      (n <= List.length (sr_accesses tr))%nat).
Proof.
  split; [|split].
  - intros tr Hnever H. apply run_op_shape in H.
    destruct H as (v1 & v2 & ws & w & cl1 & cl2 & lk & L & Hw & ->).
    destruct (wait_ok_bits w Hw) as (_ & B2 & _ & B4).
    destruct Hnever as [N|N].
    + rewrite (N (wa_idle w)) in B2; [discriminate|].
      apply in_or_app. right. apply in_or_app. left.
      unfold wait_trace. apply in_or_app. right. left. reflexivity.
    + rewrite (N (wa_done w)) in B4; [discriminate|].
      apply in_or_app. right. apply in_or_app. left.
      unfold wait_trace. apply in_or_app. right. right.
      apply in_or_app. right. left. reflexivity.
  - intros n. exists (before_wait op 0 0 example_words ++ polls (repeat 1 n)).
    split; [|split].
    + apply partial_op_in_wait; [reflexivity|]. intros k.
      apply partial_wait_busy. clear. induction n; simpl; constructor; auto.
    + intros s H. apply in_sr_accesses in H.
      rewrite sr_accesses_app, sr_accesses_before, sr_accesses_polls in H.
      apply in_polls, repeat_spec in H. subst s. reflexivity.
    + rewrite sr_accesses_app, sr_accesses_before, sr_accesses_polls.
      unfold polls. simpl. rewrite length_map, repeat_length. lia.
  - intros n.
    exists (before_wait op 0 0 example_words ++ ORead SR 0 :: polls (repeat 0 n)).
    split; [|split].
    + apply partial_op_in_wait; [reflexivity|]. intros k.
      apply partial_wait_pending; [reflexivity|].
      clear. induction n; simpl; constructor; auto.
    + intros s H. apply in_sr_accesses in H.
      rewrite sr_accesses_app, sr_accesses_before in H. simpl in H.
      rewrite sr_accesses_polls in H. destruct H as [H|H].
      * inversion H. reflexivity.
      * apply in_polls, repeat_spec in H. subst s. reflexivity.
    + rewrite sr_accesses_app, sr_accesses_before. simpl.
      rewrite sr_accesses_polls. unfold polls. simpl.
      rewrite length_map, repeat_length. lia.
Qed.

Lemma example_hung_erase_never_idle : never_idle example_hung_erase.
Proof.
  intros s H. simpl in H.
  repeat (destruct H as [H|H]; [try discriminate H; inversion H; reflexivity|]).
  contradiction.
Qed.

Lemma mutating_ops_have_no_timeout_witness :
  (never_idle example_hung_erase \/ never_done example_hung_erase) /\
  ~ runs (run_op (ErasePage 0x08003000)) example_hung_erase tt.
Proof.
  split; [left; exact example_hung_erase_never_idle|].
  apply (proj1 (mutating_ops_have_no_timeout (ErasePage 0x08003000))).
  left. exact example_hung_erase_never_idle.
Defined.

(** ** The fault handler *)

Lemma partial_reg_set_bits r m tr :
  partial (reg_set_bits r m) tr <->
  tr = [] \/ exists v, tr = [ORead r v] \/ tr = [ORead r v; OWrite r (Z.lor v m)].
Proof.
  unfold reg_set_bits. rewrite partial_bind. split.
  - intros [H|(v & tr1 & tr2 & -> & H1 & H2)].
    + apply partial_trigger in H. destruct H as [->|[v ->]]; [auto|].
      right. exists v. left. reflexivity.
    + apply runs_trigger in H1. apply partial_trigger in H2. subst.
      right. exists v. destruct H2 as [->|[[] ->]]; [left|right]; reflexivity.
  - intros [->|[v [->| ->]]].
    + left. apply partial_nil.
    + left. apply partial_trigger. right. exists v. reflexivity.
    + right. exists v, [ORead r v], [OWrite r (Z.lor v m)].
      repeat split; [apply runs_trigger; reflexivity|].
      apply partial_trigger. right. exists tt. reflexivity.
Qed.

(** [while(1);] exchanges nothing and never ends. *)
Lemma halt_trace tr o :
  iter_trace (while_body (Ret true)) tt tr o -> tr = [] /\ o = None.
Proof.
  induction 1 as [[] tr H|[] tr [] H|[] [] tr1 tr2 o H _ IH];
    unfold while_body in H.
  - apply partial_bind in H. destruct H as [H|(b & tr1 & tr2 & -> & H1 & H2)].
    + apply partial_ret in H. auto.
    + apply runs_ret in H1. destruct H1 as [-> ->].
      apply partial_ret in H2. subst. auto.
  - apply runs_bind in H. destruct H as (b & tr1 & tr2 & -> & H1 & H2).
    apply runs_ret in H1. destruct H1 as [-> ->].
    apply runs_ret in H2. destruct H2 as [_ H2]. discriminate.
  - apply runs_bind in H. destruct H as (b & tr3 & tr4 & -> & H1 & H2).
    apply runs_ret in H1. destruct H1 as [-> ->].
    apply runs_ret in H2. destruct H2 as [-> _].
    destruct IH as [-> ->]. auto.
Qed.

Lemma halt_never_returns tr u : ~ runs (while_ (Ret true)) tr u.
Proof.
  unfold while_. fold (while_body (Ret true)). rewrite runs_iter.
  intros H. apply halt_trace in H. destruct H; discriminate.
Qed.

Lemma halt_partial tr : partial (while_ (Ret true)) tr -> tr = [].
Proof.
  unfold while_. fold (while_body (Ret true)). rewrite partial_iter.
  intros H. apply halt_trace in H. tauto.
Qed.

Lemma halt_exec n : exec n (while_ (Ret true)) [] None.
Proof.
  induction n as [|n IH]; [simpl; auto|].
  cbn [exec]. unfold while_ at 1. rewrite observe_iter, observe_bind, observe_bind.
  exact IH.
Qed.

Lemma handler_never_returns tr u : ~ runs FLASH_IRQHandler tr u.
Proof.
  unfold FLASH_IRQHandler. intros H.
  apply runs_seq in H. destruct H as (t1 & t2 & -> & _ & H).
  apply runs_seq in H. destruct H as (t3 & t4 & -> & _ & H).
  exact (halt_never_returns _ _ H).
Qed.

Lemma handler_partial tr :
  partial FLASH_IRQHandler tr <-> exists v, is_prefix tr (handler_trace v).
Proof.
  unfold FLASH_IRQHandler, handler_trace, is_prefix. split.
  - intros H. apply partial_seq in H.
    destruct H as [H|(t1 & t2 & -> & H1 & H)].
    + apply partial_trigger in H. destruct H as [->|[[] ->]].
      * exists 0. eexists. reflexivity.
      * exists 0. eexists. reflexivity.
    + apply runs_trigger in H1. subst t1. apply partial_seq in H.
      destruct H as [H|(t3 & t4 & -> & H3 & H)].
      * apply partial_reg_set_bits in H. destruct H as [->|[v [->| ->]]].
        -- exists 0. eexists. reflexivity.
        -- exists v. eexists. reflexivity.
        -- exists v. exists []. reflexivity.
      * apply runs_reg_set_bits in H3. destruct H3 as [v ->].
        apply halt_partial in H. subst t4. exists v. exists []. reflexivity.
  - intros (v & rest & E).
    assert (P : partial
                  (ITree.trigger (Printf memory_error_msg);;
                   reg_set_bits SR (Z.shiftl 0x32F 8);; while_ (Ret true))
                  (handler_trace v)).
    { apply (partial_seq_app _ _ [OPrintf memory_error_msg]);
        [apply runs_trigger; reflexivity|].
      apply partial_seq_stop. apply partial_reg_set_bits.
      right. exists v. right. reflexivity. }
    destruct tr as [|e1 [|e2 [|e3 [|e4 tr]]]]; simpl in E.
    + apply partial_nil.
    + inversion E; subst. apply partial_seq_stop. apply partial_trigger.
      right. exists tt. reflexivity.
    + inversion E; subst.
      apply (partial_seq_app _ _ [OPrintf memory_error_msg]);
        [apply runs_trigger; reflexivity|].
      apply partial_seq_stop. apply partial_reg_set_bits.
      right. exists v. left. reflexivity.
    + inversion E; subst. exact P.
    + discriminate E.
Qed.

Lemma handler_exec v n :
  (3 <= n)%nat -> exec n FLASH_IRQHandler (handler_trace v) None.
Proof.
  intros Hn. replace n with (1 + (2 + (n - 3)))%nat by lia.
  unfold FLASH_IRQHandler, handler_trace.
  apply (exec_bind_intro _ 1 _ [OPrintf memory_error_msg] tt).
  { simpl. exists tt, []. simpl. auto. }
  apply (exec_bind_intro _ 2 _ [ORead SR v; OWrite SR (Z.lor v (Z.shiftl 0x32F 8))] tt).
  { simpl. exists v. eexists. split; [reflexivity|].
    simpl. exists tt, []. simpl. auto. }
  apply halt_exec.
Qed.

(** C7.  [FLASH_IRQHandler] prints its message, loads [SR] and stores it
    back with a 1 in every error flag (the flags are cleared by writing 1),
    and then halts: its observable executions are exactly the prefixes of
    these three events, after them it goes on stepping silently for any
    number of steps, and it never returns; so whatever is to run after the
    handler (the operation it interrupted) never does: the sequence never
    returns and shows no event beyond the handler's own, and the handler
    hands no value to anyone. *)
Theorem fault_handler_clears_flags_then_halts :
  (forall tr, partial FLASH_IRQHandler tr <-> exists v, is_prefix tr (handler_trace v)) /\
  Z.shiftl 0x32F 8 = fold_right (fun b acc => Z.lor (BIT b) acc) 0 error_flag_bits /\
  (forall v b, In b error_flag_bits ->
     Z.testbit (Z.lor v (Z.shiftl 0x32F 8)) b = true) /\
  (forall v n, (3 <= n)%nat -> exec n FLASH_IRQHandler (handler_trace v) None) /\
  (forall tr u, ~ runs FLASH_IRQHandler tr u) /\
  (forall (U : Type) (k : prog U) tr,
     (forall u, ~ runs (FLASH_IRQHandler;; k) tr u) /\
     (partial (FLASH_IRQHandler;; k) tr -> partial FLASH_IRQHandler tr)).
Proof.
  split; [exact handler_partial|].
  split; [reflexivity|].
  split.
  { intros v b Hb. rewrite Z.lor_spec.
    simpl in Hb. repeat (destruct Hb as [<-|Hb]; [apply orb_true_r|]).
    contradiction. }
  split; [exact handler_exec|].
  split; [exact handler_never_returns|].
  intros U k tr. split.
  - intros u H. apply runs_seq in H. destruct H as (t1 & t2 & _ & H & _).
    exact (handler_never_returns _ _ H).
  - intros H. apply partial_seq in H. destruct H as [H|(t1 & t2 & _ & H & _)].
    + exact H.
    + destruct (handler_never_returns _ _ H).
Qed.

(** ** Executions that can still return *)

Lemma ext_ret {R} (r : R) : extendable (Ret r : prog R).
Proof.
  intros tr H. apply partial_ret in H. subst.
  exists [], r. apply runs_ret. auto.
Qed.

Lemma ext_trigger {X} (e : nvmE X) : extendable (ITree.trigger e).
Proof.
  intros tr H. apply partial_trigger in H. destruct H as [->|[x ->]].
  - exists [obs_of e (default_answer e)], (default_answer e).
    apply runs_trigger. reflexivity.
  - exists [], x. apply runs_trigger. reflexivity.
Qed.

Lemma ext_bind {R U} (t : prog R) (k : R -> prog U) :
  extendable t -> (forall x, extendable (k x)) -> extendable (ITree.bind t k).
Proof.
  intros Ht Hk tr H. apply partial_bind in H.
  destruct H as [H|(x & tr1 & tr2 & -> & H1 & H2)].
  - destruct (Ht _ H) as (tr' & x & Hx).
    destruct (Hk x [] (partial_nil _)) as (tr'' & u & Hu).
    exists (tr' ++ tr''), u. rewrite app_assoc.
    apply runs_bind. exists x, (tr ++ tr'), tr''. auto.
  - destruct (Hk x _ H2) as (tr' & u & Hu).
    exists tr', u. rewrite <- app_assoc.
    apply runs_bind. exists x, tr1, (tr2 ++ tr'). auto.
Qed.

Lemma ext_iter {I R} (body : I -> prog (I + R)) (P : I -> Prop) :
  (forall i, P i -> extendable (body i)) ->
  (forall i tr i', P i -> runs (body i) tr (inl i') -> P i') ->
  (forall i, P i -> exists tr r, runs (ITree.iter body i) tr r) ->
  forall i, P i -> extendable (ITree.iter body i).
Proof.
  intros Hb Hinv Hend i Hi tr H. apply partial_iter in H.
  remember None as o eqn:Eo. revert Hi.
  induction H as [i tr H|i tr r H|i i' tr1 tr2 o H1 H2 IH]; intros Hi;
    [|discriminate|].
  - destruct (Hb i Hi _ H) as (tr' & [i'|r] & Hx).
    + destruct (Hend i' (Hinv _ _ _ Hi Hx)) as (tr'' & r & Hr).
      exists (tr' ++ tr''), r. rewrite app_assoc.
      apply runs_iter. eapply iter_again; [exact Hx|].
      apply runs_iter. exact Hr.
    + exists tr', r. apply runs_iter. apply iter_last. exact Hx.
  - destruct (IH Eo (Hinv _ _ _ Hi H1)) as (tr' & r & Hr).
    exists tr', r. rewrite <- app_assoc.
    apply runs_iter. eapply iter_again; [exact H1|].
    apply runs_iter. exact Hr.
Qed.

Lemma ext_reg_set_bits r m : extendable (reg_set_bits r m).
Proof. apply ext_bind; intros; apply ext_trigger. Qed.

Lemma ext_reg_clear_bits r m : extendable (reg_clear_bits r m).
Proof. apply ext_bind; intros; apply ext_trigger. Qed.

Lemma ext_while_poll test :
  (exists s, test s = false) -> extendable (while_ (poll_sr test)).
Proof.
  intros [s Hs]. unfold while_.
  apply (ext_iter _ (fun _ => True)); auto.
  - intros _ _. apply ext_bind; [|intros; apply ext_ret].
    apply ext_bind; [apply ext_trigger|intros; apply ext_ret].
  - intros [] _. exists [ORead SR s], tt.
    apply (runs_while_poll test). exists [], s. repeat split; auto.
Qed.

Lemma ext_burst_loop a p h : extendable (burst_loop a p h 0).
Proof.
  unfold burst_loop.
  apply (ext_iter _ (fun i => 0 <= i <= 16)); [| | |lia].
  - intros i _. unfold burst_body. destruct (i <? 16); [|apply ext_ret].
    apply ext_bind; [apply ext_trigger|]. intros w.
    apply ext_bind; [apply ext_trigger|]. intros _. apply ext_ret.
  - intros i tr i' Hi H. apply runs_burst_body in H.
    destruct (Z.ltb_spec i 16) as [Lt|Ge].
    + destruct H as (w & _ & E). injection E as ->.
      unfold wrap8. rewrite Z.mod_small by lia. lia.
    + destruct H; discriminate.
  - intros i Hi. exists (burst_trace a (32 * p + 16 * h + i)
                                     (repeat 0 (Z.to_nat (16 - i)))), tt.
    apply (runs_burst_loop a p h (Z.to_nat (16 - i))); [lia|lia|].
    eexists. split; [apply repeat_length|reflexivity].
Qed.

Lemma ext_FLASHUpd_HalfPage a p h : extendable (FLASHUpd_HalfPage a p h).
Proof.
  unfold FLASHUpd_HalfPage.
  repeat (apply ext_bind; [first [apply ext_trigger | apply ext_reg_set_bits
                                  | apply ext_reg_clear_bits | apply ext_burst_loop
                                  | apply ext_while_poll ]|intros _]).
  - exists 0. reflexivity.
  - exists 2. reflexivity.
  - apply ext_trigger.
Qed.

(** ** The interrupt mask during half-page programming *)

Lemma irq_monitor_app ph l1 l2 :
  irq_monitor ph (l1 ++ l2) =
  match irq_monitor ph l1 with
  | Some ph' => irq_monitor ph' l2
  | None => None
  end.
Proof.
  revert ph. induction l1 as [|e l1 IH]; intros ph; simpl; [reflexivity|].
  destruct (irq_step ph e); auto.
Qed.

Lemma irq_monitor_polls ss : irq_monitor Masked (polls ss) = Some Masked.
Proof. induction ss; simpl; auto. Qed.

Lemma irq_monitor_wait w : irq_monitor Masked (wait_trace w) = Some Masked.
Proof.
  unfold wait_trace. rewrite irq_monitor_app, irq_monitor_polls. simpl.
  rewrite irq_monitor_app, irq_monitor_polls. reflexivity.
Qed.

Lemma irq_monitor_burst a ws : forall idx,
  irq_monitor Masked (burst_trace a idx ws) = Some Masked.
Proof. induction ws; intros; simpl; auto. Qed.

Lemma irq_monitor_restored tr ph : irq_monitor Restored tr = Some ph -> tr = [].
Proof. destruct tr; simpl; [auto|discriminate]. Qed.

Lemma irq_monitor_enabled tr : forall ph ph',
  irq_monitor ph tr = Some ph' -> In OIrqOn tr ->
  ph' = Restored /\ exists tr0, tr = tr0 ++ [OIrqOn] /\ ~ In OIrqOn tr0.
Proof.
  induction tr as [|e tr IH]; intros ph ph' H Hin; [destruct Hin|].
  simpl in H. destruct (irq_step ph e) as [ph1|] eqn:E; [|discriminate].
  destruct (match e with OIrqOn => true | _ => false end) eqn:On.
  - destruct e; try discriminate On.
    destruct ph; try discriminate E. injection E as <-.
    pose proof (irq_monitor_restored _ _ H) as ->. simpl in H.
    split; [congruence|]. exists []. auto.
  - destruct Hin as [->|Hin]; [discriminate On|].
    destruct (IH _ _ H Hin) as (-> & tr0 & -> & N).
    split; [reflexivity|]. exists (e :: tr0). split; [reflexivity|].
    intros [->|H']; [discriminate On|auto].
Qed.

Lemma irq_monitor_halfpage a p h v1 v2 ws w v3 v4 v5 :
  irq_monitor Unmasked (halfpage_trace a p h v1 v2 ws w v3 v4 v5) = Some Restored.
Proof.
  unfold halfpage_trace. cbn [unlock_obs set_obs app irq_monitor irq_step].
  rewrite irq_monitor_app, irq_monitor_burst.
  rewrite irq_monitor_app, irq_monitor_wait. reflexivity.
Qed.

(** C6.  In every execution of [FLASHUpd_HalfPage], returned or not: no
    word is loaded from the buffer or stored to flash and [SR] is not
    accessed before [__disable_irq()]; after it interrupts are not
    re-enabled before the end ([irq_monitor] accepts the trace); if
    [__enable_irq()] is observed at all it is the last event and the
    function has returned.  If the execution returns, it is
    [setup ++ __disable_irq() :: critical ++ [__enable_irq()]], where
    [setup] is the unlocking and the mode selection and [critical] is, in
    this order, the burst of sixteen stores, the completion wait, the
    clearing of bits 3 and 10 of [PECR] and the store that sets [PELOCK]. *)
Theorem halfpage_runs_with_interrupts_masked (a p h : Z) (tr : trace) :
  partial (FLASHUpd_HalfPage a p h) tr ->
  irq_monitor Unmasked tr <> None /\
  (In OIrqOn tr ->
     runs (FLASHUpd_HalfPage a p h) tr tt /\
     exists tr0, tr = tr0 ++ [OIrqOn] /\ ~ In OIrqOn tr0) /\
  (runs (FLASHUpd_HalfPage a p h) tr tt ->
     irq_monitor Unmasked tr = Some Restored /\
     exists v1 v2 ws w v3 v4 v5,
       List.length ws = 16%nat /\ wait_ok w /\
       tr = halfpage_setup v1 v2 ++
            OIrqOff :: halfpage_critical a p h ws w v3 v4 v5 ++ [OIrqOn] /\
       irq_monitor Unmasked (halfpage_setup v1 v2) = Some Unmasked /\
       irq_monitor Masked (halfpage_critical a p h ws w v3 v4 v5) = Some Masked).
Proof.
  intros Hp.
  destruct (ext_FLASHUpd_HalfPage a p h tr Hp) as (tr' & [] & Hr).
  pose proof Hr as Hs. apply runs_FLASHUpd_HalfPage in Hs.
  destruct Hs as (v1 & v2 & ws & w & v3 & v4 & v5 & L & Hw & E).
  pose proof (irq_monitor_halfpage a p h v1 v2 ws w v3 v4 v5) as M.
  rewrite <- E, irq_monitor_app in M.
  destruct (irq_monitor Unmasked tr) as [ph|] eqn:Mtr; [|discriminate].
  split; [discriminate|]. split.
  - intros Hin. destruct (irq_monitor_enabled _ _ _ Mtr Hin) as (-> & tr0 & E0 & N).
    apply irq_monitor_restored in M. subst tr'. rewrite app_nil_r in Hr.
    split; [exact Hr|]. exists tr0. auto.
  - clear dependent tr'. clear L Hw v1 v2 ws w v3 v4 v5.
    intros Hr. apply runs_FLASHUpd_HalfPage in Hr.
    destruct Hr as (v1 & v2 & ws & w & v3 & v4 & v5 & L & Hw & ->).
    split.
    + rewrite <- Mtr. apply irq_monitor_halfpage.
    + exists v1, v2, ws, w, v3, v4, v5.
      split; [exact L|]. split; [exact Hw|]. split.
      * unfold halfpage_trace, halfpage_setup, halfpage_critical. trace_eq.
      * split; [reflexivity|]. unfold halfpage_critical.
        rewrite irq_monitor_app, irq_monitor_burst.
        rewrite irq_monitor_app, irq_monitor_wait. reflexivity.
Qed.

Lemma halfpage_runs_with_interrupts_masked_witness :
  partial (FLASHUpd_HalfPage 0x08003000 0 0) example_halfpage_run /\
  irq_monitor Unmasked example_halfpage_run <> None /\
  (In OIrqOn example_halfpage_run ->
     runs (FLASHUpd_HalfPage 0x08003000 0 0) example_halfpage_run tt /\
     exists tr0, example_halfpage_run = tr0 ++ [OIrqOn] /\ ~ In OIrqOn tr0) /\
  (runs (FLASHUpd_HalfPage 0x08003000 0 0) example_halfpage_run tt ->
     irq_monitor Unmasked example_halfpage_run = Some Restored /\
     exists v1 v2 ws w v3 v4 v5,
       List.length ws = 16%nat /\ wait_ok w /\
       example_halfpage_run
       = halfpage_setup v1 v2 ++
         OIrqOff :: halfpage_critical 0x08003000 0 0 ws w v3 v4 v5 ++ [OIrqOn] /\
       irq_monitor Unmasked (halfpage_setup v1 v2) = Some Unmasked /\
       irq_monitor Masked (halfpage_critical 0x08003000 0 0 ws w v3 v4 v5)
       = Some Masked).
Proof.
  split; [exact (runs_partial _ _ _ example_halfpage_runs)|].
  apply (halfpage_runs_with_interrupts_masked 0x08003000 0 0 example_halfpage_run).
  exact (runs_partial _ _ _ example_halfpage_runs).
Defined.

(** ** The accesses to the control register [PECR] *)

Lemma pecr_accesses_app l1 l2 :
  pecr_accesses (l1 ++ l2) = pecr_accesses l1 ++ pecr_accesses l2.
Proof. apply filter_app. Qed.

Lemma pecr_accesses_polls ss : pecr_accesses (polls ss) = [].
Proof. induction ss; simpl; auto. Qed.

Lemma pecr_accesses_wait w : pecr_accesses (wait_trace w) = [].
Proof.
  unfold wait_trace. rewrite pecr_accesses_app, pecr_accesses_polls. simpl.
  rewrite pecr_accesses_app, pecr_accesses_polls. reflexivity.
Qed.

Lemma pecr_accesses_burst a ws : forall idx, pecr_accesses (burst_trace a idx ws) = [].
Proof. induction ws; intros; simpl; auto. Qed.

Lemma pecr_stores_app l1 l2 : pecr_stores (l1 ++ l2) = pecr_stores l1 ++ pecr_stores l2.
Proof. apply flat_map_app. Qed.

Lemma pecr_stores_polls ss : pecr_stores (polls ss) = [].
Proof. induction ss; simpl; auto. Qed.

Lemma pecr_stores_wait w : pecr_stores (wait_trace w) = [].
Proof.
  unfold wait_trace. rewrite pecr_stores_app, pecr_stores_polls. simpl.
  rewrite pecr_stores_app, pecr_stores_polls. reflexivity.
Qed.

Lemma pecr_stores_burst a ws : forall idx, pecr_stores (burst_trace a idx ws) = [].
Proof. induction ws; intros; simpl; auto. Qed.





Lemma pecr_accesses_op op v1 v2 ws w cl1 cl2 lk :
  pecr_accesses (before_wait op v1 v2 ws ++ wait_trace w ++ after_wait op cl1 cl2 lk)
  = op_pecr_accesses op v1 v2 cl1 cl2 lk.
Proof.
  rewrite !pecr_accesses_app, pecr_accesses_wait.
  destruct op as [a|a x|a p h]; try reflexivity.
  cbn [before_wait]. rewrite !pecr_accesses_app, pecr_accesses_burst. reflexivity.
Qed.

Lemma pecr_stores_op op v1 v2 ws w cl1 cl2 lk :
  pecr_stores (before_wait op v1 v2 ws ++ wait_trace w ++ after_wait op cl1 cl2 lk)
  = pecr_stores (op_pecr_accesses op v1 v2 cl1 cl2 lk).
Proof.
  rewrite !pecr_stores_app, pecr_stores_wait.
  destruct op as [a|a x|a p h]; try reflexivity.
  cbn [before_wait]. rewrite !pecr_stores_app, pecr_stores_burst. reflexivity.
Qed.


(** ** Mode bits left in [PECR] *)

(** From [reads_back ... = true], the equations between the values loaded
    and the values stored before. *)
Ltac reads_back_eqs R :=
  cbn [reads_back set_obs clear_obs app] in R;
  repeat (apply andb_true_iff in R;
          let E := fresh "E" in
          destruct R as [E R]; apply Z.eqb_eq in E; subst).

(** C10.  [FLASHErase_Page] stores to [PECR] three times (bit 9, bit 3,
    bit 0), each store keeping every bit that was set in the value just
    loaded; so, when [PECR] reads back what is stored, the value left in
    [PECR] on return has the erase bit 9 and the flash-target bit 3 set:
    they are never cleared.  [FLASHUpd_HalfPage] stores to [PECR] five
    times; the third clears bit 3, the fourth clears bit 10, and these come
    before the store that sets [PELOCK]; so the value left in [PECR] on
    return has bits 3 and 10 clear and bit 0 set. *)
Theorem erase_leaves_mode_bits_halfpage_clears_them :
  (forall a tr, runs (FLASHErase_Page a) tr tt ->
     List.length (pecr_stores tr) = 3%nat /\
     map snd (pecr_updates tr) = pecr_stores tr /\
     Forall (fun uv => forall b, 0 <= b -> Z.testbit (fst uv) b = true ->
                                 Z.testbit (snd uv) b = true) (pecr_updates tr) /\
     (pecr_reads_back tr = true ->
      exists v, last_pecr_store tr = Some v /\
                Z.testbit v 9 = true /\ Z.testbit v 3 = true /\
                Z.testbit v 0 = true)) /\
  (forall a p h tr, runs (FLASHUpd_HalfPage a p h) tr tt ->
     exists s1 s2 c1 c2 lk,
       pecr_stores tr = [s1; s2; c1; c2; lk] /\
       map snd (pecr_updates tr) = pecr_stores tr /\
       Z.testbit c1 3 = false /\ Z.testbit c2 10 = false /\
       last_pecr_store tr = Some lk /\
       (pecr_reads_back tr = true ->
        Z.testbit lk 3 = false /\ Z.testbit lk 10 = false /\
        Z.testbit lk 0 = true)).
Proof.
  split.
  - intros a tr H. apply (run_op_shape (ErasePage a)) in H.
    destruct H as (v1 & v2 & ws & w & cl1 & cl2 & lk & L & Hw & ->).
    unfold pecr_updates, pecr_reads_back, last_pecr_store.
    rewrite pecr_accesses_op, pecr_stores_op.
    cbn [op_pecr_accesses set_obs app rmw_pairs pecr_stores flat_map map snd].
    split; [reflexivity|]. split; [reflexivity|]. split.
    + repeat (apply Forall_cons;
              [cbn [fst snd]; intros b Hb T; rewrite Z.lor_spec, T; reflexivity|]).
      apply Forall_nil.
    + intros R. reads_back_eqs R.
      eexists. split; [reflexivity|].
      rewrite !testbit_set_bits by lia. simpl.
      rewrite !orb_true_r. auto.
  - intros a p h tr H. apply (run_op_shape (ProgramHalfPage a p h)) in H.
    destruct H as (v1 & v2 & ws & w & cl1 & cl2 & lk & L & Hw & ->).
    unfold pecr_updates, pecr_reads_back, last_pecr_store.
    rewrite pecr_accesses_op, pecr_stores_op.
    cbn [op_pecr_accesses set_obs clear_obs app rmw_pairs pecr_stores flat_map
         map snd].
    eexists _, _, _, _, _. split; [reflexivity|]. split; [reflexivity|].
    split; [rewrite testbit_clear_bits by lia; simpl; apply andb_false_r|].
    split; [rewrite testbit_clear_bits by lia; simpl; apply andb_false_r|].
    split; [reflexivity|].
    intros R. reads_back_eqs R.
    rewrite !testbit_set_bits, !testbit_clear_bits by lia. simpl.
    rewrite !andb_false_r, !orb_true_r. auto.
Qed.

Lemma erase_leaves_mode_bits_halfpage_clears_them_witness :
  (runs (FLASHErase_Page 0x08003000) example_erase_run tt /\
   pecr_reads_back example_erase_run = true /\
   exists v, last_pecr_store example_erase_run = Some v /\
             Z.testbit v 9 = true /\ Z.testbit v 3 = true /\
             Z.testbit v 0 = true) /\
  (runs (FLASHUpd_HalfPage 0x08003000 0 0) example_halfpage_run tt /\
   pecr_reads_back example_halfpage_run = true /\
   exists s1 s2 c1 c2 lk,
     pecr_stores example_halfpage_run = [s1; s2; c1; c2; lk] /\
     map snd (pecr_updates example_halfpage_run) = pecr_stores example_halfpage_run /\
     Z.testbit c1 3 = false /\ Z.testbit c2 10 = false /\
     last_pecr_store example_halfpage_run = Some lk /\
     (pecr_reads_back example_halfpage_run = true ->
      Z.testbit lk 3 = false /\ Z.testbit lk 10 = false /\
      Z.testbit lk 0 = true)).
Proof.
  split.
  - split; [exact example_erase_runs|]. split; [reflexivity|].
    apply (proj1 erase_leaves_mode_bits_halfpage_clears_them
                 0x08003000 example_erase_run example_erase_runs).
    reflexivity.
  - split; [exact example_halfpage_runs|]. split; [reflexivity|].
    exact (proj2 erase_leaves_mode_bits_halfpage_clears_them
                 0x08003000 0 0 example_halfpage_run example_halfpage_runs).
Defined.

(** ** Runs on the controller, compositionally *)

Lemma run_observe {R} fuel (t1 t2 : prog R) d :
  observe t1 = observe t2 -> run fuel t1 d = run fuel t2 d.
Proof. destruct fuel; cbn [run]; intros E; [|rewrite E]; reflexivity. Qed.

Lemma run_mono {R} fuel : forall (t : prog R) d fuel' res,
  run fuel t d = Some res -> (fuel <= fuel')%nat -> run fuel' t d = Some res.
Proof.
  induction fuel as [|f IH]; intros t d fuel' res H Le; [discriminate|].
  destruct fuel' as [|f']; [lia|]. cbn [run] in *.
  destruct (observe t) as [r|t'|X e k]; [exact H| |].
  - eapply IH; [exact H|lia].
  - destruct (handle e d) as [d' x]. eapply IH; [exact H|lia].
Qed.


Lemma returns_observe {R} (t1 t2 : prog R) d d' r :
  observe t1 = observe t2 -> returns t1 d d' r -> returns t2 d d' r.
Proof.
  intros E [f H]. exists f. rewrite <- (run_observe f t1 t2 d E). exact H.
Qed.

Lemma returns_ret {R} (r : R) d : returns (Ret r) d d r.
Proof. exists 1%nat. reflexivity. Qed.

Lemma returns_tau {R} (t : prog R) d d' r : returns t d d' r -> returns (Tau t) d d' r.
Proof. intros [f H]. exists (S f). exact H. Qed.

Lemma returns_trigger {X} (e : nvmE X) d :
  returns (ITree.trigger e) d (fst (handle e d)) (snd (handle e d)).
Proof.
  exists 2%nat. change (run 2 (ITree.trigger e) d)
    with (let (d', x) := handle e d in run 1 (Ret x) d').
  destruct (handle e d). reflexivity.
Qed.

Lemma returns_bind {R U} (t : prog R) (k : R -> prog U) d d1 d2 x u :
  returns t d d1 x -> returns (k x) d1 d2 u -> returns (ITree.bind t k) d d2 u.
Proof.
  intros [f1 H1] [f2 H2]. exists (f1 + f2)%nat.
  revert t d H1. induction f1 as [|f IH]; intros t d H1; [discriminate|].
  change (S f + f2)%nat with (S (f + f2)).
  cbn [run] in H1. destruct (observe t) as [r|t'|X e h] eqn:E.
  - inversion H1; subst.
    rewrite (run_observe _ (ITree.bind t k) (k x)).
    + eapply run_mono; [exact H2|lia].
    + rewrite observe_bind, E. reflexivity.
  - cbn [run]. rewrite observe_bind, E. apply IH. exact H1.
  - cbn [run]. rewrite observe_bind, E.
    destruct (handle e d) as [d' y]. apply IH. exact H1.
Qed.

Lemma returns_seq {U} (t : prog unit) (k : prog U) d d1 d2 u :
  returns t d d1 tt -> returns k d1 d2 u -> returns (t;; k) d d2 u.
Proof. intros H1 H2. eapply returns_bind; eauto. Qed.

Lemma returns_event {U} (e : nvmE unit) (k : prog U) d d2 u :
  returns k (fst (handle e d)) d2 u -> returns (ITree.trigger e;; k) d d2 u.
Proof.
  intros H. eapply returns_bind; [apply returns_trigger|].
  destruct (snd (handle e d)). exact H.
Qed.

Lemma returns_iter_last {I R} (body : I -> prog (I + R)) i d d' r :
  returns (body i) d d' (inr r) -> returns (ITree.iter body i) d d' r.
Proof.
  intros H. eapply returns_observe; [apply eq_sym, observe_iter|].
  eapply returns_bind; [exact H|]. apply returns_ret.
Qed.

Lemma returns_iter_again {I R} (body : I -> prog (I + R)) i i' d d1 d2 r :
  returns (body i) d d1 (inl i') -> returns (ITree.iter body i') d1 d2 r ->
  returns (ITree.iter body i) d d2 r.
Proof.
  intros H1 H2. eapply returns_observe; [apply eq_sym, observe_iter|].
  eapply returns_bind; [exact H1|]. apply returns_tau. exact H2.
Qed.

(** A run on the controller is one of the runs of the trace semantics: the
    one in which the environment answers as the controller does. *)
Lemma follow_step_handle {X} (e : nvmE X) d :
  follow_step d (obs_of e (snd (handle e d))) = Some (fst (handle e d)).
Proof.
  destruct e; cbn [obs_of follow_step]; try reflexivity;
    destruct (handle _ d) as [d' x]; cbn [fst snd]; rewrite Z.eqb_refl; reflexivity.
Qed.

Lemma run_has_trace {R} fuel : forall (t : prog R) d d' r,
  run fuel t d = Some (d', r) ->
  exists tr, runs t tr r /\ follows d tr = Some d'.
Proof.
  induction fuel as [|f IH]; intros t d d' r H; [discriminate|].
  cbn [run] in H. destruct (observe t) as [r0|t'|X e k] eqn:E.
  - inversion H; subst. exists []. split; [|reflexivity].
    exists O. cbn [exec]. auto.
  - destruct (IH _ _ _ _ H) as (tr & [n Hn] & F).
    exists tr. split; [|exact F]. exists (S n). cbn [exec]. rewrite E. exact Hn.
  - pose proof (follow_step_handle e d) as Fs.
    destruct (handle e d) as [d1 x]. cbn [fst snd] in Fs.
    destruct (IH _ _ _ _ H) as (tr & [n Hn] & F).
    exists (obs_of e x :: tr). split.
    + exists (S n). cbn [exec]. rewrite E. exists x, tr. auto.
    + cbn [follows]. rewrite Fs. exact F.
Qed.

Lemma returns_has_trace {R} (t : prog R) d d' r :
  returns t d d' r -> exists tr, runs t tr r /\ follows d tr = Some d'.
Proof. intros [fuel H]. eapply run_has_trace; eauto. Qed.

Lemma returns_poll_sr test d :
  returns (poll_sr test) d (fst (read_sr d)) (test (snd (read_sr d))).
Proof.
  unfold poll_sr. eapply returns_bind.
  - apply (returns_trigger (RegRead SR)).
  - apply returns_ret.
Qed.

Lemma returns_while_exit test d :
  test (snd (read_sr d)) = false ->
  returns (while_ (poll_sr test)) d (fst (read_sr d)) tt.
Proof.
  intros T. unfold while_. apply returns_iter_last.
  eapply returns_bind; [apply returns_poll_sr|]. rewrite T. apply returns_ret.
Qed.

Lemma returns_while_again test d d' :
  test (snd (read_sr d)) = true ->
  returns (while_ (poll_sr test)) (fst (read_sr d)) d' tt ->
  returns (while_ (poll_sr test)) d d' tt.
Proof.
  intros T H. unfold while_ in *. eapply returns_iter_again; [|exact H].
  eapply returns_bind; [apply returns_poll_sr|]. rewrite T. apply returns_ret.
Qed.

Lemma returns_reg_set_bits r m d :
  returns (reg_set_bits r m) d
          (fst (handle (RegWrite r (Z.lor (snd (handle (RegRead r) d)) m))
                       (fst (handle (RegRead r) d)))) tt.
Proof.
  unfold reg_set_bits. eapply returns_bind; [apply returns_trigger|].
  set (e := RegWrite r _). pose proof (returns_trigger e (fst (handle (RegRead r) d))) as H.
  destruct (snd (handle e _)). exact H.
Qed.

Lemma returns_reg_clear_bits r m d :
  returns (reg_clear_bits r m) d
          (fst (handle (RegWrite r (Z.land (snd (handle (RegRead r) d))
                                           (wrap32 (Z.lnot m))))
                       (fst (handle (RegRead r) d)))) tt.
Proof.
  unfold reg_clear_bits. eapply returns_bind; [apply returns_trigger|].
  set (e := RegWrite r _). pose proof (returns_trigger e (fst (handle (RegRead r) d))) as H.
  destruct (snd (handle e _)). exact H.
Qed.

(** ** The steps of the driver on the controller *)

Lemma data_locked_set_pecr d v : data_locked (set_pecr d v) = Z.testbit v 0.
Proof. reflexivity. Qed.

Lemma clearbit0_unlocked c : Z.testbit (Z.clearbit c 0) 0 = false.
Proof. apply Z.clearbit_eq. Qed.

Lemma data_locked_stored_pecr d v : data_locked (stored_pecr d v) = Z.testbit v 0.
Proof. reflexivity. Qed.

(** The two stores of [PEKEY1], [PEKEY2] open the data lock. *)
Lemma write_pekeys d :
  write_pekeyr (write_pekeyr d PEKEY1) PEKEY2
  = set_pekey_seen (set_selecting (set_pecr d (Z.clearbit (pecr d) 0)) false) PEKEY2.
Proof.
  unfold write_pekeyr.
  change (PEKEY1 =? PEKEY2) with false. rewrite andb_false_r.
  cbn [set_pekey_seen pekey_seen pecr].
  change ((PEKEY1 =? PEKEY1) && (PEKEY2 =? PEKEY2)) with true.
  cbv iota. reflexivity.
Qed.

(** With the data lock open, the two stores of [PRGKEY1], [PRGKEY2] open
    the program lock. *)
Lemma write_prgkeys d :
  data_locked d = false ->
  write_prgkeyr (write_prgkeyr d PRGKEY1) PRGKEY2
  = set_prgkey_seen (set_prglock d false) PRGKEY2.
Proof.
  intros U. unfold write_prgkeyr.
  change (PRGKEY1 =? PRGKEY2) with false. rewrite andb_false_r, andb_false_l.
  cbn [set_prgkey_seen prgkey_seen].
  change ((PRGKEY1 =? PRGKEY1) && (PRGKEY2 =? PRGKEY2)) with true.
  replace (data_locked (set_prgkey_seen d PRGKEY1)) with false by (symmetry; exact U).
  reflexivity.
Qed.

Lemma returns_unlock_data {U} (k : prog U) d d' u :
  returns k (unlocked_data d) d' u ->
  returns (ITree.trigger (RegWrite PEKEYR PEKEY1);;
           ITree.trigger (RegWrite PEKEYR PEKEY2);; k) d d' u.
Proof.
  intros H. do 2 apply returns_event. cbn [handle fst].
  rewrite write_pekeys. exact H.
Qed.

Lemma returns_unlock_both {U} (k : prog U) d d' u :
  returns k (unlocked_both d) d' u ->
  returns (ITree.trigger (RegWrite PEKEYR PEKEY1);;
           ITree.trigger (RegWrite PEKEYR PEKEY2);;
           ITree.trigger (RegWrite PRGKEYR PRGKEY1);;
           ITree.trigger (RegWrite PRGKEYR PRGKEY2);; k) d d' u.
Proof.
  intros H. do 4 apply returns_event. cbn [handle fst].
  rewrite write_pekeys, write_prgkeys by apply clearbit0_unlocked.
  exact H.
Qed.

(** A store to [PECR] made with the data lock open and leaving it open. *)
Lemma write_pecr_open d v :
  data_locked d = false -> Z.testbit v 0 = false -> write_pecr d v = stored_pecr d v.
Proof. intros L B. unfold write_pecr, PELOCK_bit. rewrite L, B. reflexivity. Qed.

(** The release step: the store that sets the data lock, made with the
    data lock open, closes both locks. *)
Lemma write_pecr_release d :
  data_locked d = false -> write_pecr d (Z.lor (pecr d) (BIT 0)) = relocked d.
Proof.
  intros L. unfold write_pecr, PELOCK_bit. rewrite L.
  rewrite testbit_set_bits by lia. rewrite Z.eqb_refl, orb_true_r. reflexivity.
Qed.


(** [PECR |= (1<<n)] and [PECR &= ~(1<<n)], for a bit [n] other than the
    lock bit, while the data lock is open. *)
Lemma returns_pecr_set {U} (k : prog U) n d d' u :
  0 < n -> data_locked d = false ->
  returns k (stored_pecr d (Z.lor (pecr d) (BIT n))) d' u ->
  returns (reg_set_bits PECR (BIT n);; k) d d' u.
Proof.
  intros Hn L H. eapply returns_seq; [apply returns_reg_set_bits|].
  cbn [handle fst snd]. rewrite write_pecr_open; [exact H|exact L|].
  rewrite testbit_set_bits by lia. unfold data_locked, PELOCK_bit in L. rewrite L.
  apply Z.eqb_neq. lia.
Qed.

Lemma returns_pecr_clear {U} (k : prog U) n d d' u :
  0 < n -> data_locked d = false ->
  returns k (stored_pecr d (Z.land (pecr d) (wrap32 (Z.lnot (BIT n))))) d' u ->
  returns (reg_clear_bits PECR (BIT n);; k) d d' u.
Proof.
  intros Hn L H. eapply returns_seq; [apply returns_reg_clear_bits|].
  cbn [handle fst snd]. rewrite write_pecr_open; [exact H|exact L|].
  rewrite testbit_clear_bits by lia. unfold data_locked, PELOCK_bit in L. rewrite L.
  reflexivity.
Qed.

Lemma returns_release d :
  data_locked d = false -> returns (reg_set_bits PECR (BIT 0)) d (relocked d) tt.
Proof.
  intros L. pose proof (returns_reg_set_bits PECR (BIT 0) d) as H.
  cbn [handle fst snd] in H. rewrite write_pecr_release in H by exact L. exact H.
Qed.

(** ** The completion wait on the controller *)

Lemma busy_view_busy s : sr_busy (busy_view s) = true.
Proof. rewrite sr_busy_bit. apply Z.setbit_eq. lia. Qed.

Lemma returns_busy_loop n : forall d,
  pending d = n -> sr_busy (sr d) = false ->
  returns (while_ poll_busy) d (set_pending d 0) tt.
Proof.
  unfold poll_busy.
  induction n as [|n IH]; intros d P B.
  - replace (set_pending d 0) with (fst (read_sr d))
      by (unfold read_sr; rewrite P; destruct d; simpl in *; subst; reflexivity).
    apply returns_while_exit. unfold read_sr. rewrite P. exact B.
  - apply returns_while_again; unfold read_sr; rewrite P; cbn [fst snd].
    + apply busy_view_busy.
    + apply (IH (set_pending d n)); [reflexivity|exact B].
Qed.

Lemma returns_wait {U} (k : prog U) d d' u :
  sr_busy (sr d) = false -> sr_eop (sr d) = true ->
  returns k (acknowledged d) d' u ->
  returns (while_ poll_busy;; while_ poll_not_eop;; reg_set_bits SR (BIT 1);; k) d d' u.
Proof.
  intros B E H.
  eapply returns_seq; [apply (returns_busy_loop (pending d)); auto|].
  eapply returns_seq.
  { unfold poll_not_eop. apply returns_while_exit.
    cbn [read_sr set_pending pending snd sr]. rewrite E. reflexivity. }
  cbn [read_sr set_pending pending fst].
  eapply returns_seq; [apply returns_reg_set_bits|].
  cbn [handle read_sr set_pending pending fst snd sr]. exact H.
Qed.

Lemma start_operation_flags d :
  sr_busy (sr (start_operation d)) = false /\ sr_eop (sr (start_operation d)) = true.
Proof.
  unfold start_operation. cbn [sr set_pending set_sr].
  rewrite sr_busy_bit, sr_eop_bit. split.
  - rewrite Z.setbit_neq by lia. apply Z.clearbit_eq.
  - apply Z.setbit_eq. lia.
Qed.

(** ** Page erase on the controller *)

Lemma erase_selected_bits c :
  Z.testbit (erase_selected c) 0 = false /\
  Z.testbit (erase_selected c) 9 = true /\
  Z.testbit (erase_selected c) 3 = true.
Proof.
  unfold erase_selected. rewrite !testbit_set_bits by lia.
  rewrite clearbit0_unlocked. simpl. rewrite !orb_true_r. auto.
Qed.

Lemma returns_FLASHErase_Page d a :
  returns (FLASHErase_Page a) d (after_erase d a) tt.
Proof.
  destruct (erase_selected_bits (pecr d)) as (B0 & B9 & B3).
  unfold FLASHErase_Page. apply returns_unlock_both.
  apply returns_pecr_set; [lia|apply clearbit0_unlocked|].
  apply returns_pecr_set; [lia| |].
  { rewrite data_locked_stored_pecr, testbit_set_bits by lia.
    cbn [unlocked_both pecr]. rewrite clearbit0_unlocked. reflexivity. }
  apply returns_event. cbn [handle fst].
  unfold write_mem, data_locked, mode_in_force, mode_of, PELOCK_bit.
  cbn [stored_pecr set_selecting set_pecr unlocked_both pecr prglock mem selecting].
  fold (erase_selected (pecr d)).
  rewrite B0, B9, B3. cbn [orb andb].
  match goal with |- returns _ (start_operation ?s) _ _ =>
    destruct (start_operation_flags s) as [Fb Fe] end.
  apply returns_wait; [exact Fb|exact Fe|].
  apply returns_release.
  unfold data_locked, PELOCK_bit. cbn [acknowledged start_operation set_sr
    set_pending set_mem pecr]. exact B0.
Qed.

(** C4.  On the simulated controller, from every state and for every
    page-aligned address, [FLASHErase_Page] returns, and then every address
    of that page reads as all-ones while the rest of the flash is as it
    was. *)
Theorem erase_page_reads_all_ones (d : nvm) (a : Z) :
  a mod PAGE_BYTES = 0 ->
  exists d',
    returns (FLASHErase_Page a) d d' tt /\
    (forall x, a <= x < a + PAGE_BYTES -> mem d' x = 0xFFFFFFFF) /\
    (forall x, ~ (a <= x < a + PAGE_BYTES) -> mem d' x = mem d x).
Proof.
  intros Al. exists (after_erase d a). split; [apply returns_FLASHErase_Page|].
  cbn [after_erase relocked stored_pecr set_selecting acknowledged start_operation
       set_sr set_pending set_mem set_pecr set_prglock mem].
  unfold erase_page, page_base. rewrite Al, Z.sub_0_r. split; intros x Hx.
  - replace (a <=? x) with true by (symmetry; apply Z.leb_le; lia).
    replace (x <? a + PAGE_BYTES) with true by (symmetry; apply Z.ltb_lt; lia).
    reflexivity.
  - destruct (Z.leb_spec a x); destruct (Z.ltb_spec x (a + PAGE_BYTES));
      try reflexivity. lia.
Qed.

Lemma erase_page_reads_all_ones_witness :
  0x08003000 mod PAGE_BYTES = 0 /\
  exists d',
    returns (FLASHErase_Page 0x08003000) (power_on 3 (fun _ => 0x12345678) (fun i => i)) d' tt /\
    (forall x, 0x08003000 <= x < 0x08003000 + PAGE_BYTES -> mem d' x = 0xFFFFFFFF) /\
    (forall x, ~ (0x08003000 <= x < 0x08003000 + PAGE_BYTES) ->
               mem d' x = mem (power_on 3 (fun _ => 0x12345678) (fun i => i)) x).
Proof.
  split; [reflexivity|].
  apply (erase_page_reads_all_ones
           (power_on 3 (fun _ => 0x12345678) (fun i => i)) 0x08003000).
  reflexivity.
Defined.

(** ** Word programming on the controller *)









(** ** Half-page programming on the controller *)








(** ** Re-locking *)



(** ** Initialisation on the controller *)

Lemma init_pecr_testbit c n :
  0 <= n ->
  Z.testbit (init_pecr c) n
  = ((Z.testbit c n && negb (0 =? n)) && ((n <? 32) && negb (16 =? n)))
    || (17 =? n) || (0 =? n).
Proof.
  intros Hn. unfold init_pecr.
  rewrite !testbit_set_bits, testbit_clear_bits, Z.clearbit_eqb by lia.
  reflexivity.
Qed.

Lemma init_pecr_idempotent c : init_pecr (init_pecr c) = init_pecr c.
Proof.
  apply Z.bits_inj'. intros n Hn. rewrite !init_pecr_testbit by exact Hn.
  destruct (Z.testbit c n), (0 =? n), (n <? 32), (16 =? n), (17 =? n); reflexivity.
Qed.

Lemma returns_NVM_Init d : returns NVM_Init d (after_init d) tt.
Proof.
  unfold NVM_Init. apply returns_unlock_data.
  apply returns_pecr_clear; [lia|apply clearbit0_unlocked|].
  apply returns_pecr_set; [lia| |].
  { rewrite data_locked_stored_pecr, testbit_clear_bits by lia.
    cbn [unlocked_data pecr]. rewrite clearbit0_unlocked. reflexivity. }
  match goal with |- returns _ ?s _ _ =>
    replace (after_init d) with (relocked s); [apply returns_release|reflexivity]
  end.
  unfold data_locked, PELOCK_bit.
  cbn [unlocked_data stored_pecr set_selecting set_pecr pecr].
  rewrite testbit_set_bits, testbit_clear_bits by lia.
  rewrite clearbit0_unlocked. reflexivity.
Qed.

Lemma after_init_idempotent d : after_init (after_init d) = after_init d.
Proof.
  destruct d.
  cbv [after_init stored_pecr set_selecting set_pecr set_prglock unlocked_data
       pecr prglock pekey_seen prgkey_seen sr pending latency mem latch
       irq_masked rx_buf selecting].
  rewrite init_pecr_idempotent. reflexivity.
Qed.

(** C9.  On the simulated controller [NVM_Init] is idempotent: from every
    state it returns, running it a second time returns and leaves the very
    state the first run left, and in that state the end-of-operation
    interrupt is disabled (bit 16 clear), the error interrupt is enabled
    (bit 17 set) and the data lock is set (bit 0 set). *)
Theorem NVM_Init_idempotent (d : nvm) :
  exists d1,
    returns NVM_Init d d1 tt /\
    returns NVM_Init d1 d1 tt /\
    returns (NVM_Init;; NVM_Init) d d1 tt /\
    Z.testbit (pecr d1) 16 = false /\
    Z.testbit (pecr d1) 17 = true /\
    Z.testbit (pecr d1) PELOCK_bit = true.
Proof.
  exists (after_init d).
  assert (R2 : returns NVM_Init (after_init d) (after_init d) tt).
  { pose proof (returns_NVM_Init (after_init d)) as H.
    rewrite after_init_idempotent in H. exact H. }
  split; [apply returns_NVM_Init|]. split; [exact R2|].
  split; [eapply returns_seq; [apply returns_NVM_Init|exact R2]|].
  cbn [after_init stored_pecr set_selecting set_pecr set_prglock pecr].
  unfold PELOCK_bit.
  rewrite !init_pecr_testbit by lia. simpl. rewrite !andb_false_r, !orb_true_r.
  auto.
Qed.

(** * Further properties of the driver *)

(** ** The set-up functions never wait *)

Lemma finishes_ret {R} (r : R) : finishes_within 0 (Ret r : prog R).
Proof. intros n tr o H. apply exec_ret_inv in H. lia. Qed.

Lemma finishes_trigger {X} (e : nvmE X) : finishes_within 1 (ITree.trigger e).
Proof.
  intros [|n] tr o H; [lia|]. simpl in H.
  destruct H as (x & tr' & -> & H). apply exec_ret_inv in H. lia.
Qed.

Lemma finishes_bind {R U} k1 k2 (t : prog R) (k : R -> prog U) :
  finishes_within k1 t -> (forall x, finishes_within k2 (k x)) ->
  finishes_within (k1 + k2) (ITree.bind t k).
Proof.
  intros Ht Hk n tr o H. apply exec_bind_inv in H.
  destruct H as [[_ H]|(n1 & n2 & x & tr1 & tr2 & -> & _ & H1 & H2)].
  - apply Ht in H. lia.
  - apply Ht in H1. apply Hk in H2. lia.
Qed.

Lemma finishes_rmw_set r m : finishes_within 2 (reg_set_bits r m).
Proof.
  apply (finishes_bind 1 1); [apply finishes_trigger|].
  intros v. apply finishes_trigger.
Qed.

Lemma finishes_rmw_clear r m : finishes_within 2 (reg_clear_bits r m).
Proof.
  apply (finishes_bind 1 1); [apply finishes_trigger|].
  intros v. apply finishes_trigger.
Qed.

Lemma ext_NVM_Init : extendable NVM_Init.
Proof.
  unfold NVM_Init.
  repeat (apply ext_bind; [first [apply ext_trigger | apply ext_reg_set_bits
                                  | apply ext_reg_clear_bits]|intros _]).
  apply ext_reg_set_bits.
Qed.

Lemma runs_FLASHIRQPriorEnable irqn tr :
  runs (FLASHIRQPriorEnable irqn) tr tt <->
  tr = [ONvicPriority irqn 1; ONvicEnable irqn].
Proof.
  unfold FLASHIRQPriorEnable. rewrite runs_seq. split.
  - intros (t1 & t2 & -> & H1 & H2).
    apply runs_trigger in H1. apply runs_trigger in H2. subst. reflexivity.
  - intros ->. exists [ONvicPriority irqn 1], [ONvicEnable irqn].
    repeat split; apply runs_trigger; reflexivity.
Qed.

(** X1.  [NVM_Init] and [FLASHIRQPriorEnable] contain no wait: whatever the
    hardware answers, every execution of [NVM_Init] takes at most 8 steps
    and every execution of [FLASHIRQPriorEnable] at most 2, and each one
    observed so far goes on to return.  A run of [NVM_Init] is eight
    register accesses, none of them to [SR]; a run of
    [FLASHIRQPriorEnable] sets the priority of the flash interrupt to 1 and
    then enables that interrupt, and does nothing else. *)
Theorem setup_functions_always_return :
  finishes_within 8 NVM_Init /\
  extendable NVM_Init /\
  (forall tr, runs NVM_Init tr tt ->
     List.length tr = 8%nat /\ sr_accesses tr = []) /\
  (forall irqn, finishes_within 2 (FLASHIRQPriorEnable irqn)) /\
  (forall irqn, extendable (FLASHIRQPriorEnable irqn)) /\
  (forall irqn tr, runs (FLASHIRQPriorEnable irqn) tr tt <->
                   tr = [ONvicPriority irqn 1; ONvicEnable irqn]).
Proof.
  split; [|split; [|split; [|split; [|split]]]].
  - unfold NVM_Init.
    apply (finishes_bind 1 7); [apply finishes_trigger|intros _].
    apply (finishes_bind 1 6); [apply finishes_trigger|intros _].
    apply (finishes_bind 2 4); [apply finishes_rmw_clear|intros _].
    apply (finishes_bind 2 2); [apply finishes_rmw_set|intros _].
    apply finishes_rmw_set.
  - exact ext_NVM_Init.
  - intros tr H. apply runs_NVM_Init in H. destruct H as (v1 & v2 & v3 & ->).
    split; reflexivity.
  - intros irqn. unfold FLASHIRQPriorEnable.
    apply (finishes_bind 1 1); [apply finishes_trigger|intros _].
    apply finishes_trigger.
  - intros irqn. unfold FLASHIRQPriorEnable.
    apply ext_bind; [apply ext_trigger|intros _; apply ext_trigger].
  - exact runs_FLASHIRQPriorEnable.
Qed.

(** ** The control bits [NVM_Init] changes *)

Lemma lor_bit_other v n b :
  0 <= n -> 0 <= b -> b <> n -> Z.testbit (Z.lor v (BIT n)) b = Z.testbit v b.
Proof.
  intros Hn Hb Ne. rewrite testbit_set_bits by assumption.
  replace (n =? b) with false by (symmetry; apply Z.eqb_neq; lia).
  apply orb_false_r.
Qed.

Lemma lor_bit_same v n : 0 <= n -> Z.testbit (Z.lor v (BIT n)) n = true.
Proof.
  intros Hn. rewrite testbit_set_bits by assumption.
  rewrite Z.eqb_refl. apply orb_true_r.
Qed.

Lemma clear_bit_other v n b :
  0 <= n -> 0 <= b < 32 -> b <> n ->
  Z.testbit (Z.land v (wrap32 (Z.lnot (BIT n)))) b = Z.testbit v b.
Proof.
  intros Hn Hb Ne. rewrite testbit_clear_bits by lia.
  replace (n =? b) with false by (symmetry; apply Z.eqb_neq; lia).
  replace (b <? 32) with true by (symmetry; apply Z.ltb_lt; lia).
  apply andb_true_r.
Qed.

Lemma clear_bit_same v n :
  0 <= n -> Z.testbit (Z.land v (wrap32 (Z.lnot (BIT n)))) n = false.
Proof.
  intros Hn. rewrite testbit_clear_bits by lia.
  rewrite Z.eqb_refl. simpl. rewrite andb_false_r. apply andb_false_r.
Qed.

Lemma clear_bit_high v n b :
  0 <= n -> 32 <= b ->
  Z.testbit (Z.land v (wrap32 (Z.lnot (BIT n)))) b = false.
Proof.
  intros Hn Hb. rewrite testbit_clear_bits by lia.
  replace (b <? 32) with false by (symmetry; apply Z.ltb_ge; lia).
  apply andb_false_r.
Qed.

(** X2.  [NVM_Init] opens the data lock only and changes three bits of
    [PECR]: its key stores are the two to [PEKEYR] (the program-memory key
    register is not written), it stores nothing to flash and loads nothing
    from the buffer, and its three read-modify-writes of [PECR] clear bit
    16, set bit 17 and set bit 0, each storing every other bit (below 32)
    as it was loaded.  When [PECR] reads back what is stored, the value
    left in [PECR] has bit 16 clear, bits 17 and 0 set and every other bit
    as in the first value loaded. *)
Theorem NVM_Init_changes_three_control_bits (tr : trace) :
  runs NVM_Init tr tt ->
  key_stores tr = [OWrite PEKEYR PEKEY1; OWrite PEKEYR PEKEY2] /\
  mem_stores tr = [] /\ buf_loads tr = [] /\
  (exists l1 s1 l2 s2 l3 s3,
     pecr_updates tr = [(l1, s1); (l2, s2); (l3, s3)] /\
     pecr_stores tr = [s1; s2; s3] /\
     Z.testbit s1 16 = false /\
     (forall b, 0 <= b < 32 -> b <> 16 -> Z.testbit s1 b = Z.testbit l1 b) /\
     Z.testbit s2 17 = true /\
     (forall b, 0 <= b -> b <> 17 -> Z.testbit s2 b = Z.testbit l2 b) /\
     Z.testbit s3 0 = true /\
     (forall b, 0 <= b -> b <> 0 -> Z.testbit s3 b = Z.testbit l3 b)) /\
  (pecr_reads_back tr = true ->
   exists v c,
     first_pecr_load tr = Some v /\ last_pecr_store tr = Some c /\
     Z.testbit c 16 = false /\ Z.testbit c 17 = true /\ Z.testbit c 0 = true /\
     forall b, 0 <= b < 32 -> ~ In b [0; 16; 17] -> Z.testbit c b = Z.testbit v b).
Proof.
  intros H. apply runs_NVM_Init in H. destruct H as (v1 & v2 & v3 & ->).
  split; [reflexivity|]. split; [reflexivity|]. split; [reflexivity|]. split.
  - eexists _, _, _, _, _, _. split; [reflexivity|]. split; [reflexivity|].
    split; [apply clear_bit_same; lia|].
    split; [intros b Hb Ne; apply clear_bit_other; lia|].
    split; [apply lor_bit_same; lia|].
    split; [intros b Hb Ne; apply lor_bit_other; lia|].
    split; [apply lor_bit_same; lia|].
    intros b Hb Ne. apply lor_bit_other; lia.
  - intros R. unfold pecr_reads_back in R.
    cbn [init_trace app clear_obs set_obs pecr_accesses filter is_pecr reads_back] in R.
    apply andb_prop in R. destruct R as [E2 R].
    apply andb_prop in R. destruct R as [E3 _].
    apply Z.eqb_eq in E2, E3. subst v2 v3.
    eexists _, _. split; [reflexivity|]. split; [reflexivity|].
    split.
    { rewrite !lor_bit_other by lia. apply clear_bit_same. lia. }
    split.
    { rewrite lor_bit_other by lia. apply lor_bit_same. lia. }
    split; [apply lor_bit_same; lia|].
    intros b Hb Nb. simpl in Nb.
    rewrite !lor_bit_other by lia. apply clear_bit_other; lia.
Qed.

Lemma NVM_Init_changes_three_control_bits_witness :
  runs NVM_Init (init_trace 0x10004 0x4 0x20004) tt /\
  pecr_reads_back (init_trace 0x10004 0x4 0x20004) = true /\
  exists v c,
    first_pecr_load (init_trace 0x10004 0x4 0x20004) = Some v /\
    last_pecr_store (init_trace 0x10004 0x4 0x20004) = Some c /\
    Z.testbit c 16 = false /\ Z.testbit c 17 = true /\ Z.testbit c 0 = true /\
    forall b, 0 <= b < 32 -> ~ In b [0; 16; 17] -> Z.testbit c b = Z.testbit v b.
Proof.
  assert (H : runs NVM_Init (init_trace 0x10004 0x4 0x20004) tt).
  { apply runs_NVM_Init. exists 0x10004, 0x4, 0x20004. reflexivity. }
  split; [exact H|]. split; [reflexivity|].
  apply (NVM_Init_changes_three_control_bits _ H). reflexivity.
Defined.

(** ** Running [NVM_Init] twice *)

Lemma init_reads_back v1 v2 v3 :
  pecr_reads_back (init_trace v1 v2 v3) = true ->
  v2 = Z.land v1 (wrap32 (Z.lnot (BIT 16))) /\ v3 = Z.lor v2 (BIT 17).
Proof.
  unfold pecr_reads_back.
  cbn [init_trace app clear_obs set_obs pecr_accesses filter is_pecr reads_back].
  intros R. apply andb_prop in R. destruct R as [E2 R].
  apply andb_prop in R. destruct R as [E3 _].
  apply Z.eqb_eq in E2, E3. auto.
Qed.

Lemma init_left_bits v b :
  0 <= b ->
  Z.testbit (Z.lor (Z.lor (Z.land v (wrap32 (Z.lnot (BIT 16)))) (BIT 17)) (BIT 0)) b
  = if b =? 0 then true
    else if b =? 16 then false
    else if b =? 17 then true
    else (b <? 32) && Z.testbit v b.
Proof.
  intros Hb.
  destruct (Z.eqb_spec b 0) as [->|N0]; [apply lor_bit_same; lia|].
  rewrite lor_bit_other by lia.
  destruct (Z.eqb_spec b 16) as [->|N16].
  { rewrite lor_bit_other by lia. apply clear_bit_same. lia. }
  destruct (Z.eqb_spec b 17) as [->|N17]; [apply lor_bit_same; lia|].
  rewrite lor_bit_other by lia.
  destruct (Z.ltb_spec b 32) as [Lt|Ge].
  - apply clear_bit_other; lia.
  - apply clear_bit_high; lia.
Qed.

(** X3.  Running [NVM_Init] a second time changes nothing more.  Take a
    run of [NVM_Init] followed by a second one, [PECR] reading back what
    is stored during each of them, the second finding in [PECR] what the
    first left there, bit 0 apart (the lock bit, which the key stores in
    between open).  Together they are a run of [NVM_Init;; NVM_Init], and
    the value it leaves in [PECR] is the value the first run left. *)
Theorem NVM_Init_twice_leaves_same_control_value (tr1 tr2 : trace) (c1 v : Z) :
  runs NVM_Init tr1 tt -> runs NVM_Init tr2 tt ->
  pecr_reads_back tr1 = true -> pecr_reads_back tr2 = true ->
  last_pecr_store tr1 = Some c1 -> first_pecr_load tr2 = Some v ->
  (forall b, 1 <= b -> Z.testbit v b = Z.testbit c1 b) ->
  runs (NVM_Init;; NVM_Init) (tr1 ++ tr2) tt /\
  last_pecr_store (tr1 ++ tr2) = Some c1.
Proof.
  intros H1 H2 R1 R2 L1 F2 K.
  split; [apply runs_seq_app; assumption|].
  apply runs_NVM_Init in H1. destruct H1 as (v1 & v2 & v3 & ->).
  apply runs_NVM_Init in H2. destruct H2 as (u1 & u2 & u3 & ->).
  apply init_reads_back in R1. destruct R1 as [-> ->].
  apply init_reads_back in R2. destruct R2 as [-> ->].
  change (Some (Z.lor (Z.lor (Z.land v1 (wrap32 (Z.lnot (BIT 16)))) (BIT 17)) (BIT 0))
          = Some c1) in L1.
  change (Some u1 = Some v) in F2.
  injection L1 as <-. injection F2 as <-.
  change (Some (Z.lor (Z.lor (Z.land u1 (wrap32 (Z.lnot (BIT 16)))) (BIT 17)) (BIT 0))
          = Some (Z.lor (Z.lor (Z.land v1 (wrap32 (Z.lnot (BIT 16)))) (BIT 17)) (BIT 0))).
  f_equal. apply Z.bits_inj'. intros b Hb.
  rewrite (init_left_bits u1 b Hb), (init_left_bits v1 b Hb).
  destruct (Z.eqb_spec b 0) as [->|N0]; [reflexivity|].
  destruct (Z.eqb_spec b 16) as [->|N16]; [reflexivity|].
  destruct (Z.eqb_spec b 17) as [->|N17]; [reflexivity|].
  assert (Kb := K b ltac:(lia)).
  change (Z.testbit u1 b
          = Z.testbit (Z.lor (Z.lor (Z.land v1 (wrap32 (Z.lnot (BIT 16)))) (BIT 17))
                             (BIT 0)) b) in Kb.
  rewrite Kb, (init_left_bits v1 b Hb).
  destruct (Z.eqb_spec b 0); [lia|].
  destruct (Z.eqb_spec b 16); [lia|].
  destruct (Z.eqb_spec b 17); [lia|].
  destruct (b <? 32); reflexivity.
Qed.

Lemma NVM_Init_twice_leaves_same_control_value_witness :
  runs (NVM_Init;; NVM_Init)
       (init_trace 0x10004 0x4 0x20004 ++ init_trace 0x20004 0x20004 0x20004) tt /\
  last_pecr_store
    (init_trace 0x10004 0x4 0x20004 ++ init_trace 0x20004 0x20004 0x20004)
  = Some 0x20005.
Proof.
  apply (NVM_Init_twice_leaves_same_control_value
           (init_trace 0x10004 0x4 0x20004) (init_trace 0x20004 0x20004 0x20004)
           0x20005 0x20004).
  - apply runs_NVM_Init. eexists _, _, _. reflexivity.
  - apply runs_NVM_Init. eexists _, _, _. reflexivity.
  - reflexivity.
  - reflexivity.
  - reflexivity.
  - reflexivity.
  - intros b Hb. change 0x20005 with (Z.lor 0x20004 (BIT 0)).
    symmetry. apply lor_bit_other; lia.
Defined.

(** ** Erasing and word programming: one store, interrupts untouched *)

Lemma ext_wait_then {U} (k : prog U) :
  extendable k ->
  extendable (while_ poll_busy;; while_ poll_not_eop;; reg_set_bits SR (BIT 1);; k).
Proof.
  intros Hk.
  apply ext_bind; [apply ext_while_poll; exists 0; reflexivity|intros _].
  apply ext_bind; [apply ext_while_poll; exists 2; reflexivity|intros _].
  apply ext_bind; [apply ext_reg_set_bits|intros _]. exact Hk.
Qed.

Lemma ext_FLASHErase_Page a : extendable (FLASHErase_Page a).
Proof.
  unfold FLASHErase_Page.
  do 4 (apply ext_bind; [apply ext_trigger|intros _]).
  do 2 (apply ext_bind; [apply ext_reg_set_bits|intros _]).
  apply ext_bind; [apply ext_trigger|intros _].
  apply ext_wait_then. apply ext_reg_set_bits.
Qed.

Lemma ext_FLASHUpd_Word a v : extendable (FLASHUpd_Word a v).
Proof.
  unfold FLASHUpd_Word.
  do 5 (apply ext_bind; [apply ext_trigger|intros _]).
  apply ext_wait_then. apply ext_reg_set_bits.
Qed.

Lemma ext_run_op op : extendable (run_op op).
Proof.
  destruct op; simpl.
  - apply ext_FLASHErase_Page.
  - apply ext_FLASHUpd_Word.
  - apply ext_FLASHUpd_HalfPage.
Qed.

Lemma irq_events_app l1 l2 : irq_events (l1 ++ l2) = irq_events l1 ++ irq_events l2.
Proof. apply filter_app. Qed.

Lemma irq_events_polls ss : irq_events (polls ss) = [].
Proof. induction ss; simpl; auto. Qed.

Lemma irq_events_wait w : irq_events (wait_trace w) = [].
Proof.
  unfold wait_trace. rewrite irq_events_app, irq_events_polls. simpl.
  rewrite irq_events_app, irq_events_polls. reflexivity.
Qed.

(** A property of a whole run that passes to each of its beginnings. *)
Lemma single_store_prefix tr tr' (s : Z * Z) :
  irq_events (tr ++ tr') = [] -> buf_loads (tr ++ tr') = [] ->
  mem_stores (tr ++ tr') = [s] ->
  irq_events tr = [] /\ buf_loads tr = [] /\
  (mem_stores tr = [] \/ mem_stores tr = [s]).
Proof.
  rewrite irq_events_app, buf_loads_app, mem_stores_app. intros I B M.
  apply app_eq_nil in I. apply app_eq_nil in B.
  split; [tauto|]. split; [tauto|].
  apply app_eq_unit in M. tauto.
Qed.

Lemma erase_trace_stores a v1 v2 w v3 :
  irq_events (erase_trace a v1 v2 w v3) = [] /\
  buf_loads (erase_trace a v1 v2 w v3) = [] /\
  mem_stores (erase_trace a v1 v2 w v3) = [(a, 0)].
Proof.
  unfold erase_trace.
  rewrite !irq_events_app, !buf_loads_app, !mem_stores_app.
  rewrite irq_events_wait, buf_loads_wait, mem_stores_wait. auto.
Qed.

Lemma word_trace_stores a x w v :
  irq_events (word_trace a x w v) = [] /\
  buf_loads (word_trace a x w v) = [] /\
  mem_stores (word_trace a x w v) = [(a, x)].
Proof.
  unfold word_trace.
  rewrite !irq_events_app, !buf_loads_app, !mem_stores_app.
  rewrite irq_events_wait, buf_loads_wait, mem_stores_wait. auto.
Qed.

(** X4.  [FLASHErase_Page] and [FLASHUpd_Word] store to flash once and
    leave the interrupt mask alone.  In every execution of either,
    returned or not, [__disable_irq()] and [__enable_irq()] are never
    called and nothing is loaded from the receive buffer; the stores to
    flash made so far are none or the single store of the operation, and a
    run that returns has made exactly that store: the value [0] at the
    address given to [FLASHErase_Page], the value given to [FLASHUpd_Word]
    at the address given to it, both used as passed. *)
Theorem erase_and_word_store_once_unmasked :
  (forall a tr, partial (FLASHErase_Page a) tr ->
     irq_events tr = [] /\ buf_loads tr = [] /\
     (mem_stores tr = [] \/ mem_stores tr = [(a, 0)])) /\
  (forall a tr, runs (FLASHErase_Page a) tr tt -> mem_stores tr = [(a, 0)]) /\
  (forall a v tr, partial (FLASHUpd_Word a v) tr ->
     irq_events tr = [] /\ buf_loads tr = [] /\
     (mem_stores tr = [] \/ mem_stores tr = [(a, v)])) /\
  (forall a v tr, runs (FLASHUpd_Word a v) tr tt -> mem_stores tr = [(a, v)]).
Proof.
  split; [|split; [|split]].
  - intros a tr H. destruct (ext_FLASHErase_Page a tr H) as (tr' & [] & Hr).
    apply runs_FLASHErase_Page in Hr. destruct Hr as (v1 & v2 & w & v3 & _ & E).
    destruct (erase_trace_stores a v1 v2 w v3) as (I & B & M).
    rewrite <- E in I, B, M. apply (single_store_prefix tr tr'); assumption.
  - intros a tr H. apply runs_FLASHErase_Page in H.
    destruct H as (v1 & v2 & w & v3 & _ & ->). apply erase_trace_stores.
  - intros a v tr H. destruct (ext_FLASHUpd_Word a v tr H) as (tr' & [] & Hr).
    apply runs_FLASHUpd_Word in Hr. destruct Hr as (w & lk & _ & E).
    destruct (word_trace_stores a v w lk) as (I & B & M).
    rewrite <- E in I, B, M. apply (single_store_prefix tr tr'); assumption.
  - intros a v tr H. apply runs_FLASHUpd_Word in H.
    destruct H as (w & lk & _ & ->). apply word_trace_stores.
Qed.

(** ** Nothing is stored to flash before the unlocking *)

(** An execution in which something has been observed that the part [p]
    of the whole run does not contain has gone past [p]. *)
Lemma gone_past {A} (f : obs -> list A) (p : trace) : forall tr tr' q,
  tr ++ tr' = p ++ q -> flat_map f p = [] -> flat_map f tr <> [] ->
  exists rest, tr = p ++ rest.
Proof.
  induction p as [|e p IH]; intros tr tr' q E Mp Mt.
  - exists tr. reflexivity.
  - destruct tr as [|e' tr]; [destruct Mt; reflexivity|].
    simpl in E. injection E as -> E.
    change (e :: p) with ([e] ++ p) in Mp. rewrite flat_map_app in Mp.
    apply app_eq_nil in Mp. destruct Mp as [Me Mp].
    change (e :: tr) with ([e] ++ tr) in Mt. rewrite flat_map_app, Me in Mt.
    destruct (IH tr tr' q E Mp Mt) as (rest & ->).
    exists rest. reflexivity.
Qed.

Lemma store_after_prefix (p : trace) tr tr' q :
  tr ++ tr' = p ++ q -> mem_stores p = [] -> mem_stores tr <> [] ->
  exists rest, tr = p ++ rest.
Proof. apply gone_past. Qed.

Lemma before_wait_prologue op v1 v2 ws :
  exists q, before_wait op v1 v2 ws = prologue op v1 v2 ++ q.
Proof.
  destruct op as [a|a x|a p h]; cbn [before_wait prologue].
  - exists [OMem a 0]. trace_eq.
  - exists [OMem a x]. reflexivity.
  - exists (burst_trace a (32 * p + 16 * h) ws). trace_eq.
Qed.

(** X5.  No operation stores to flash before it has unlocked.  In every
    execution of [FLASHErase_Page], [FLASHUpd_Word] or
    [FLASHUpd_HalfPage], returned or not, that contains a store to flash,
    the execution begins with the four key stores, in the order [PEKEY1],
    [PEKEY2], [PRGKEY1], [PRGKEY2], followed for the erase by the setting
    of bits 9 and 3 of [PECR] and for half-page programming by the setting
    of bits 3 and 10 and by [__disable_irq()]; [FLASHUpd_Word] selects no
    mode: its store directly follows the key stores. *)
Theorem no_flash_store_before_unlocking (op : mutating_op) (tr : trace) :
  partial (run_op op) tr -> mem_stores tr <> [] ->
  exists v1 v2 rest,
    tr = prologue op v1 v2 ++ rest /\
    mem_stores (prologue op v1 v2) = [] /\
    key_stores (prologue op v1 v2) = unlock_obs /\
    match op with
    | ProgramWord a x => exists rest', rest = OMem a x :: rest'
    | _ => True
    end.
Proof.
  intros H M. destruct (ext_run_op op tr H) as (tr' & [] & Hr).
  apply run_op_shape in Hr.
  destruct Hr as (v1 & v2 & ws & w & cl1 & cl2 & lk & L & Hw & E).
  destruct (before_wait_prologue op v1 v2 ws) as (q & Eq).
  rewrite Eq, <- app_assoc in E.
  assert (Mp : mem_stores (prologue op v1 v2) = []) by (destruct op; reflexivity).
  destruct (store_after_prefix _ _ _ _ E Mp M) as (rest & ->).
  exists v1, v2, rest. split; [reflexivity|]. split; [exact Mp|].
  split; [destruct op; reflexivity|].
  destruct op as [a|a x|a p h]; auto.
  rewrite <- app_assoc in E. apply app_inv_head in E.
  cbn [prologue] in M. rewrite mem_stores_app in M. simpl in M.
  cbn [before_wait prologue] in Eq. apply app_inv_head in Eq. subst q.
  destruct rest as [|e rest]; [destruct M; reflexivity|].
  simpl in E. injection E as -> _. eauto.
Qed.

Lemma no_flash_store_before_unlocking_witness :
  partial (run_op (ProgramWord 0x08003000 0xDEADBEEF)) example_word_run /\
  mem_stores example_word_run <> [] /\
  exists v1 v2 rest,
    example_word_run = prologue (ProgramWord 0x08003000 0xDEADBEEF) v1 v2 ++ rest /\
    mem_stores (prologue (ProgramWord 0x08003000 0xDEADBEEF) v1 v2) = [] /\
    key_stores (prologue (ProgramWord 0x08003000 0xDEADBEEF) v1 v2) = unlock_obs /\
    exists rest', rest = OMem 0x08003000 0xDEADBEEF :: rest'.
Proof.
  assert (P : partial (run_op (ProgramWord 0x08003000 0xDEADBEEF)) example_word_run)
    by exact (runs_partial _ _ _ example_word_runs).
  assert (M : mem_stores example_word_run <> []) by discriminate.
  split; [exact P|]. split; [exact M|].
  exact (no_flash_store_before_unlocking (ProgramWord 0x08003000 0xDEADBEEF) _ P M).
Defined.

(** ** An operation stops nowhere but in the completion wait *)

(** X6.  Every execution of a mutating operation observed so far can go
    on to return: there are answers of the hardware with which the run
    completes.  The driver itself never blocks an operation; only a
    controller that keeps reporting busy, or never reports completion,
    does. *)
Theorem operations_can_always_complete (op : mutating_op) (tr : trace) :
  partial (run_op op) tr -> exists tr', runs (run_op op) (tr ++ tr') tt.
Proof.
  intros H. destruct (ext_run_op op tr H) as (tr' & [] & Hr). eauto.
Qed.

Lemma operations_can_always_complete_witness :
  partial (run_op (ErasePage 0x08003000)) example_hung_erase /\
  exists tr', runs (run_op (ErasePage 0x08003000)) (example_hung_erase ++ tr') tt.
Proof.
  assert (P : partial (run_op (ErasePage 0x08003000)) example_hung_erase).
  { unfold example_hung_erase.
    change (before_wait (ErasePage 0x08003000) 4 0x204 [])
      with (before_wait (ErasePage 0x08003000) 4 0x204 example_words).
    apply partial_op_in_wait; [reflexivity|].
    intros k. apply partial_wait_busy. repeat constructor. }
  split; [exact P|].
  exact (operations_can_always_complete (ErasePage 0x08003000) _ P).
Defined.

(** ** The buffer window of half-page programming *)

Lemma In_indexed ws : forall idx i w,
  In (i, w) (indexed idx ws) -> idx <= i < idx + Z.of_nat (List.length ws).
Proof.
  induction ws as [|x ws IH]; intros idx i w H; [destruct H|].
  cbn [indexed List.length] in *. destruct H as [H|H].
  - injection H as <- _. lia.
  - apply IH in H. lia.
Qed.

Lemma halfpage_trace_loads a p h v1 v2 ws w v3 v4 v5 :
  buf_loads (halfpage_trace a p h v1 v2 ws w v3 v4 v5)
  = indexed (32 * p + 16 * h) ws.
Proof.
  unfold halfpage_trace.
  rewrite !buf_loads_app, buf_loads_burst, buf_loads_wait. simpl.
  apply app_nil_r.
Qed.

Lemma halfpage_loads_in_window a p h tr i w :
  partial (FLASHUpd_HalfPage a p h) tr -> In (i, w) (buf_loads tr) ->
  32 * p + 16 * h <= i <= 32 * p + 16 * h + 15.
Proof.
  intros H Hin. destruct (ext_FLASHUpd_HalfPage a p h tr H) as (tr' & [] & Hr).
  apply runs_FLASHUpd_HalfPage in Hr.
  destruct Hr as (v1 & v2 & ws & wt & v3 & v4 & v5 & L & _ & E).
  assert (Hin' : In (i, w) (buf_loads (tr ++ tr'))).
  { rewrite buf_loads_app. apply in_or_app. left. exact Hin. }
  rewrite E, halfpage_trace_loads in Hin'. apply In_indexed in Hin'.
  rewrite L in Hin'. lia.
Qed.

(** X7.  [FLASHUpd_HalfPage] does not check its half-page index: the
    page and half-page counts enter only through the buffer offset
    [32*page + 16*half], so two calls with the same offset have the same
    runs; with [half = 2], for instance, the function programs the first
    half of the next page of the buffer. *)
Theorem halfpage_half_index_is_not_checked (a p h p' h' : Z) (tr : trace) :
  32 * p + 16 * h = 32 * p' + 16 * h' ->
  runs (FLASHUpd_HalfPage a p h) tr tt <-> runs (FLASHUpd_HalfPage a p' h') tr tt.
Proof.
  intros E. rewrite !runs_FLASHUpd_HalfPage. unfold halfpage_trace.
  rewrite E. reflexivity.
Qed.

Lemma halfpage_half_index_is_not_checked_witness :
  32 * 0 + 16 * 2 = 32 * 1 + 16 * 0 /\
  runs (FLASHUpd_HalfPage 0x08003000 0 2)
       (halfpage_trace 0x08003000 1 0 4 0xC example_words example_wait
                       0x40C 0x404 4) tt.
Proof.
  split; [reflexivity|].
  apply (halfpage_half_index_is_not_checked 0x08003000 0 2 1 0); [reflexivity|].
  apply runs_FLASHUpd_HalfPage.
  exists 4, 0xC, example_words, example_wait, 0x40C, 0x404, 4.
  split; [reflexivity|]. split; [exact example_wait_ok|reflexivity].
Defined.

(** X8.  The words [FLASHUpd_HalfPage] loads come from the sixteen buffer
    slots [32*page + 16*half .. 32*page + 16*half + 15] and from nowhere
    else, in every execution, returned or not; with arguments in the range
    of [uint8_t] no index is negative or exceeds 12255. *)
Theorem halfpage_loads_stay_in_window (a p h : Z) (tr : trace) (i w : Z) :
  0 <= p <= 255 -> 0 <= h <= 255 ->
  partial (FLASHUpd_HalfPage a p h) tr -> In (i, w) (buf_loads tr) ->
  32 * p + 16 * h <= i <= 32 * p + 16 * h + 15 /\ 0 <= i <= 12255.
Proof.
  intros Hp Hh H Hin.
  pose proof (halfpage_loads_in_window a p h tr i w H Hin). lia.
Qed.

Lemma halfpage_loads_stay_in_window_witness :
  In (3, 3) (buf_loads example_halfpage_run) /\
  32 * 0 + 16 * 0 <= 3 <= 32 * 0 + 16 * 0 + 15 /\ 0 <= 3 <= 12255.
Proof.
  assert (Hin : In (3, 3) (buf_loads example_halfpage_run)).
  { right. right. right. left. reflexivity. }
  split; [exact Hin|].
  apply (halfpage_loads_stay_in_window 0x08003000 0 0 example_halfpage_run 3 3);
    [lia|lia| |exact Hin].
  exact (runs_partial _ _ _ example_halfpage_runs).
Defined.

(** ** The byte swap of [FLASHUpd_Word] *)

Lemma byte_mask_bits k n :
  0 <= k -> 0 <= n ->
  Z.testbit (Z.shiftl 0xff k) n = (k <=? n) && (n <? k + 8).
Proof.
  intros Hk Hn. rewrite Z.shiftl_spec by exact Hn.
  change 0xff with (Z.ones 8). rewrite Z.testbit_ones by lia.
  destruct (Z.leb_spec 0 (n - k)), (Z.leb_spec k n); try lia;
    destruct (Z.ltb_spec (n - k) 8), (Z.ltb_spec n (k + 8)); try lia; reflexivity.
Qed.

Lemma swapped_testbit v n :
  0 <= n ->
  Z.testbit (swapped_updated_flash_value v) n
  = (n <? 32) && Z.testbit v (swap_source n).
Proof.
  intros Hn. unfold swapped_updated_flash_value, swap_source.
  change 0xff with (Z.shiftl 0xff 0).
  change 0xff0000 with (Z.shiftl 0xff 16).
  change 0xff00 with (Z.shiftl 0xff 8).
  change 0xff000000 with (Z.shiftl 0xff 24).
  rewrite !Z.lor_spec, !Z.land_spec, !byte_mask_bits by lia.
  rewrite !testbit_wrap32, !Z.shiftr_spec, !Z.shiftl_spec by lia.
  destruct (Z.ltb_spec n 8), (Z.ltb_spec n 16), (Z.ltb_spec n 24),
    (Z.ltb_spec n 32); try lia;
    destruct (Z.leb_spec 0 n), (Z.leb_spec 8 n), (Z.leb_spec 16 n),
      (Z.leb_spec 24 n); try lia;
    repeat match goal with
           | |- context [?x <? ?y] =>
               destruct (Z.ltb_spec x y); try lia
           end;
    cbn [andb orb]; rewrite ?andb_true_r, ?andb_false_r, ?orb_false_r;
    reflexivity.
Qed.

Lemma swap_source_range n : 0 <= n < 32 -> 0 <= swap_source n < 32.
Proof.
  intros H. unfold swap_source.
  destruct (Z.ltb_spec n 8), (Z.ltb_spec n 16), (Z.ltb_spec n 24); lia.
Qed.

Lemma swap_source_involutive n : 0 <= n < 32 -> swap_source (swap_source n) = n.
Proof.
  intros H. unfold swap_source.
  destruct (Z.ltb_spec n 8), (Z.ltb_spec n 16), (Z.ltb_spec n 24); try lia;
    repeat match goal with
           | |- context [?x <? ?y] => destruct (Z.ltb_spec x y); try lia
           end.
Qed.

Lemma uint32_high_bits v n : 0 <= v < 2 ^ 32 -> 32 <= n -> Z.testbit v n = false.
Proof.
  intros Hv Hn. rewrite <- (Z.mod_small v (2 ^ 32)) by exact Hv.
  apply Z.mod_pow2_bits_high. lia.
Qed.

(** X9.  The byte swap that [FLASHUpd_Word] computes under
    [#ifdef endian_swap] reverses the four bytes of a 32-bit word: the
    result is a 32-bit word, its byte [k] is byte [3-k] of the argument,
    and swapping twice gives the argument back. *)
Theorem endian_swap_reverses_bytes (v : Z) :
  0 <= v < 2 ^ 32 ->
  0 <= swapped_updated_flash_value v < 2 ^ 32 /\
  swapped_updated_flash_value (swapped_updated_flash_value v) = v /\
  (forall k, 0 <= k <= 3 ->
     byte_of (swapped_updated_flash_value v) k = byte_of v (3 - k)).
Proof.
  intros Hv. split; [|split].
  - assert (E : swapped_updated_flash_value v
                = wrap32 (swapped_updated_flash_value v)).
    { apply Z.bits_inj'. intros n Hn.
      rewrite testbit_wrap32, swapped_testbit by exact Hn.
      destruct (n <? 32); reflexivity. }
    rewrite E. unfold wrap32. apply Z.mod_pos_bound. lia.
  - apply Z.bits_inj'. intros n Hn. rewrite swapped_testbit by exact Hn.
    destruct (Z.ltb_spec n 32) as [Lt|Ge].
    + pose proof (swap_source_range n ltac:(lia)) as R.
      rewrite swapped_testbit by lia.
      rewrite swap_source_involutive by lia.
      replace (swap_source n <? 32) with true by (symmetry; apply Z.ltb_lt; lia).
      reflexivity.
    + rewrite (uint32_high_bits v n Hv Ge). reflexivity.
  - intros k Hk. unfold byte_of. apply Z.bits_inj'. intros n Hn.
    rewrite !Z.land_spec, !Z.shiftr_spec, swapped_testbit by lia.
    change 0xff with (Z.ones 8). rewrite Z.testbit_ones by lia.
    destruct (Z.ltb_spec n 8) as [Lt|Ge];
      [|rewrite !andb_false_r; reflexivity].
    replace (0 <=? n) with true by (symmetry; apply Z.leb_le; lia).
    rewrite !andb_true_r.
    replace (n + 8 * k <? 32) with true by (symmetry; apply Z.ltb_lt; lia).
    cbn [andb]. f_equal. unfold swap_source.
    assert (C : k = 0 \/ k = 1 \/ k = 2 \/ k = 3) by lia.
    destruct C as [-> | [-> | [-> | ->]]];
      repeat match goal with
             | |- context [?x <? ?y] => destruct (Z.ltb_spec x y); try lia
             end.
Qed.

Lemma endian_swap_reverses_bytes_witness :
  0 <= 0x12345678 < 2 ^ 32 /\
  swapped_updated_flash_value 0x12345678 = 0x78563412 /\
  swapped_updated_flash_value (swapped_updated_flash_value 0x12345678) = 0x12345678.
Proof.
  assert (H : 0 <= 0x12345678 < 2 ^ 32) by (split; [discriminate|reflexivity]).
  split; [exact H|]. split; [reflexivity|].
  exact (proj1 (proj2 (endian_swap_reverses_bytes 0x12345678 H))).
Defined.

(** ** The erase selection is never withdrawn *)

Lemma bit_monitor_app b l1 : forall cur l2,
  bit_monitor b cur (l1 ++ l2) =
  match bit_monitor b cur l1 with
  | Some cur' => bit_monitor b cur' l2
  | None => None
  end.
Proof.
  induction l1 as [|e l1 IH]; intros cur l2; [reflexivity|].
  destruct e as [r v|r v| | | | | | |]; try destruct r; cbn [app bit_monitor];
    try apply IH.
  destruct cur as [c|]; [|apply IH].
  destruct (Bool.eqb (Z.testbit v b) c); [apply IH|reflexivity].
Qed.

Lemma bit_monitor_no_pecr b l : forall cur,
  pecr_accesses l = [] -> bit_monitor b cur l = Some cur /\ pecr_stores l = [].
Proof.
  induction l as [|e l IH]; intros cur H; [auto|].
  destruct e as [r v|r v| | | | | | |]; try destruct r;
    cbn [pecr_accesses filter is_pecr] in H; try discriminate H;
    cbn [bit_monitor pecr_stores flat_map app]; apply IH; exact H.
Qed.

Lemma stays_set_app b l1 l2 :
  stays_set b l1 -> stays_set b l2 -> stays_set b (l1 ++ l2).
Proof.
  unfold stays_set. intros H1 H2. rewrite bit_monitor_app, pecr_stores_app.
  destruct (bit_monitor b (Some true) l1) as [cur|]; [|intros N; destruct N; reflexivity].
  intros N. destruct H1 as [E F1]; [discriminate|]. injection E as ->.
  destruct (H2 N) as [E2 F2]. split; [exact E2|].
  apply Forall_app. auto.
Qed.

Lemma stays_set_no_pecr b l : pecr_accesses l = [] -> stays_set b l.
Proof.
  intros H _. destruct (bit_monitor_no_pecr b l (Some true) H) as [-> ->].
  split; [reflexivity|constructor].
Qed.

(** A read-modify-write that keeps the bit. *)
Lemma stays_set_rmw b (f : Z -> Z) v :
  (forall x, Z.testbit x b = true -> Z.testbit (f x) b = true) ->
  stays_set b [ORead PECR v; OWrite PECR (f v)].
Proof.
  intros Hf. unfold stays_set. cbn [bit_monitor pecr_stores flat_map app].
  destruct (Z.testbit v b) eqn:E; cbn [Bool.eqb]; [|intros N; destruct N; reflexivity].
  intros _. rewrite (Hf v E). split; [reflexivity|].
  constructor; [apply Hf; exact E|constructor].
Qed.

Lemma stays_set_set_obs b m v : 0 <= b -> 0 <= m -> stays_set b (set_obs PECR (BIT m) v).
Proof.
  intros Hb Hm. apply (stays_set_rmw b (fun x => Z.lor x (BIT m))).
  intros x E. rewrite testbit_set_bits, E by assumption. reflexivity.
Qed.

Lemma stays_set_clear_obs b m v :
  0 <= b < 32 -> 0 <= m -> m <> b -> stays_set b (clear_obs PECR (BIT m) v).
Proof.
  intros Hb Hm Ne.
  apply (stays_set_rmw b (fun x => Z.land x (wrap32 (Z.lnot (BIT m))))).
  intros x E. rewrite clear_bit_other by lia. exact E.
Qed.

Lemma stays_set_wait b w : stays_set b (wait_trace w).
Proof. apply stays_set_no_pecr. apply pecr_accesses_wait. Qed.

Lemma stays_set_unlock b : stays_set b unlock_obs.
Proof. apply stays_set_no_pecr. reflexivity. Qed.

Lemma stays_set_call c tr : runs (run_call c) tr tt -> stays_set 9 tr.
Proof.
  destruct c as [|[a|a x|a p h]]; cbn [run_call run_op]; intros H.
  - apply runs_NVM_Init in H. destruct H as (v1 & v2 & v3 & ->).
    unfold init_trace.
    apply stays_set_app; [apply stays_set_no_pecr; reflexivity|].
    apply stays_set_app; [apply stays_set_clear_obs; lia|].
    apply stays_set_app; apply stays_set_set_obs; lia.
  - apply runs_FLASHErase_Page in H. destruct H as (v1 & v2 & w & v3 & _ & ->).
    unfold erase_trace.
    apply stays_set_app; [apply stays_set_unlock|].
    apply stays_set_app; [apply stays_set_set_obs; lia|].
    apply stays_set_app; [apply stays_set_set_obs; lia|].
    apply stays_set_app; [apply stays_set_no_pecr; reflexivity|].
    apply stays_set_app; [apply stays_set_wait|].
    apply stays_set_set_obs; lia.
  - apply runs_FLASHUpd_Word in H. destruct H as (w & v & _ & ->).
    unfold word_trace.
    apply stays_set_app; [apply stays_set_unlock|].
    apply stays_set_app; [apply stays_set_no_pecr; reflexivity|].
    apply stays_set_app; [apply stays_set_wait|].
    apply stays_set_set_obs; lia.
  - apply runs_FLASHUpd_HalfPage in H.
    destruct H as (v1 & v2 & ws & w & v3 & v4 & v5 & _ & _ & ->).
    unfold halfpage_trace.
    apply stays_set_app; [apply stays_set_unlock|].
    apply stays_set_app; [apply stays_set_set_obs; lia|].
    apply stays_set_app; [apply stays_set_set_obs; lia|].
    apply stays_set_app; [apply stays_set_no_pecr; reflexivity|].
    apply stays_set_app; [apply stays_set_no_pecr; apply pecr_accesses_burst|].
    apply stays_set_app; [apply stays_set_wait|].
    apply stays_set_app; [apply stays_set_clear_obs; lia|].
    apply stays_set_app; [apply stays_set_clear_obs; lia|].
    apply stays_set_app; [apply stays_set_set_obs; lia|].
    apply stays_set_no_pecr. reflexivity.
Qed.

Lemma stays_set_calls cs : forall tr, runs (run_calls cs) tr tt -> stays_set 9 tr.
Proof.
  induction cs as [|c cs IH]; intros tr H; cbn [run_calls] in H.
  - apply runs_ret in H. destruct H as [-> _].
    apply stays_set_no_pecr. reflexivity.
  - apply runs_seq in H. destruct H as (t1 & t2 & -> & H1 & H2).
    apply stays_set_app; [eapply stays_set_call; exact H1|apply IH; exact H2].
Qed.

(** X10.  No function of the driver withdraws the erase selection.  Take
    a run of [FLASHErase_Page] followed by any sequence of calls of
    [NVM_Init], [FLASHErase_Page], [FLASHUpd_Word] and
    [FLASHUpd_HalfPage], in which bit 9 of [PECR] (the erase bit) changes
    through the stores of the driver only.  Then every value stored in
    [PECR] during the run, in the erase and in all calls that follow, has
    bit 9 set, and the bit is set at the end. *)
Theorem erase_selection_is_never_withdrawn
  (a : Z) (cs : list driver_call) (tr : trace) :
  runs (FLASHErase_Page a;; run_calls cs) tr tt ->
  bit_monitor 9 None tr <> None ->
  bit_monitor 9 None tr = Some (Some true) /\
  Forall (fun c => Z.testbit c 9 = true) (pecr_stores tr).
Proof.
  intros H. apply runs_seq in H. destruct H as (t1 & t2 & -> & H1 & H2).
  apply runs_FLASHErase_Page in H1. destruct H1 as (v1 & v2 & w & v3 & _ & ->).
  apply stays_set_calls in H2.
  assert (S : stays_set 9 (set_obs PECR (BIT 3) v2 ++ [OMem a 0] ++ wait_trace w ++
                           set_obs PECR (BIT 0) v3 ++ t2)).
  { apply stays_set_app; [apply stays_set_set_obs; lia|].
    apply stays_set_app; [apply stays_set_no_pecr; reflexivity|].
    apply stays_set_app; [apply stays_set_wait|].
    apply stays_set_app; [apply stays_set_set_obs; lia|exact H2]. }
  unfold erase_trace. rewrite <- !app_assoc.
  cbn [unlock_obs set_obs app bit_monitor pecr_stores flat_map] in *.
  rewrite lor_bit_same by lia.
  intros N. destruct (S N) as [E F]. split; [exact E|].
  constructor; [apply lor_bit_same; lia|exact F].
Qed.

Lemma example_erase_then_word_runs :
  runs (FLASHErase_Page 0x08003000;; FLASHUpd_Word 0x08003000 0xDEADBEEF)
       example_erase_then_word tt.
Proof.
  apply runs_seq_app; [exact example_erase_runs|].
  apply runs_FLASHUpd_Word. exists example_wait, 0x20C.
  split; [exact example_wait_ok|reflexivity].
Qed.

Lemma example_erase_then_word_calls :
  runs (FLASHErase_Page 0x08003000;;
        run_calls [Mutate (ProgramWord 0x08003000 0xDEADBEEF)])
       example_erase_then_word tt.
Proof.
  unfold example_erase_then_word.
  apply runs_seq_app; [exact example_erase_runs|].
  cbn [run_calls run_call run_op].
  rewrite <- (app_nil_r (word_trace _ _ _ _)).
  apply runs_seq_app; [|apply runs_ret; auto].
  apply runs_FLASHUpd_Word. exists example_wait, 0x20C.
  split; [exact example_wait_ok|reflexivity].
Qed.

Lemma erase_selection_is_never_withdrawn_witness :
  runs (FLASHErase_Page 0x08003000;;
        run_calls [Mutate (ProgramWord 0x08003000 0xDEADBEEF)])
       example_erase_then_word tt /\
  bit_monitor 9 None example_erase_then_word <> None /\
  bit_monitor 9 None example_erase_then_word = Some (Some true) /\
  Forall (fun c => Z.testbit c 9 = true) (pecr_stores example_erase_then_word).
Proof.
  assert (M : bit_monitor 9 None example_erase_then_word <> None) by discriminate.
  split; [exact example_erase_then_word_calls|]. split; [exact M|].
  exact (erase_selection_is_never_withdrawn
           0x08003000 _ _ example_erase_then_word_calls M).
Defined.

(** ** Programming a word after an erase *)

Lemma erase_monitor b a v1 v2 w v3 rest :
  bit_monitor b None (erase_trace a v1 v2 w v3 ++ rest) <> None ->
  Z.testbit v2 b = Z.testbit (Z.lor v1 (BIT 9)) b /\
  Z.testbit v3 b = Z.testbit (Z.lor v2 (BIT 3)) b.
Proof.
  unfold erase_trace. rewrite <- !app_assoc.
  cbn [unlock_obs set_obs app bit_monitor].
  destruct (Bool.eqb (Z.testbit v2 b) (Z.testbit (Z.lor v1 (BIT 9)) b)) eqn:E2;
    [|intros N; destruct N; reflexivity].
  rewrite bit_monitor_app.
  destruct (bit_monitor_no_pecr b (wait_trace w)
              (Some (Z.testbit (Z.lor v2 (BIT 3)) b)) (pecr_accesses_wait w))
    as [-> _].
  cbn [bit_monitor].
  destruct (Bool.eqb (Z.testbit v3 b) (Z.testbit (Z.lor v2 (BIT 3)) b)) eqn:E3;
    [|intros N; destruct N; reflexivity].
  intros _. split; apply Bool.eqb_prop; assumption.
Qed.

(** X11.  A word programmed after an erase is stored with the erase still
    selected.  In a run of [FLASHErase_Page] followed by [FLASHUpd_Word]
    in which bits 9 and 3 of [PECR] change through the stores of the
    driver only, the word's store to flash comes right after the four key
    stores, with no access to [PECR] in between, and the value last
    written to [PECR] before it has bit 9 (erase) and bit 3 (program
    memory) set: [FLASHUpd_Word] does not deselect what the erase
    selected. *)
Theorem word_after_erase_is_stored_with_erase_selected (a a' x : Z) (tr : trace) :
  runs (FLASHErase_Page a;; FLASHUpd_Word a' x) tr tt ->
  bit_monitor 9 None tr <> None -> bit_monitor 3 None tr <> None ->
  exists tr1 post c,
    runs (FLASHErase_Page a) tr1 tt /\
    tr = tr1 ++ unlock_obs ++ OMem a' x :: post /\
    mem_stores post = [] /\
    last_pecr_store (tr1 ++ unlock_obs) = Some c /\
    Z.testbit c 9 = true /\ Z.testbit c 3 = true.
Proof.
  intros H M9 M3. apply runs_seq in H. destruct H as (t1 & t2 & -> & H1 & H2).
  pose proof H1 as S1.
  apply runs_FLASHErase_Page in S1. destruct S1 as (v1 & v2 & w & v3 & _ & ->).
  apply runs_FLASHUpd_Word in H2. destruct H2 as (w' & lk & _ & ->).
  apply erase_monitor in M9. destruct M9 as [A9 B9].
  apply erase_monitor in M3. destruct M3 as [_ B3].
  rewrite lor_bit_same in A9 by lia.
  rewrite lor_bit_other, A9 in B9 by lia.
  rewrite lor_bit_same in B3 by lia.
  exists (erase_trace a v1 v2 w v3), (wait_trace w' ++ set_obs PECR (BIT 0) lk),
    (Z.lor v3 (BIT 0)).
  split; [exact H1|]. split; [reflexivity|].
  split; [rewrite mem_stores_app, mem_stores_wait; reflexivity|].
  split.
  - unfold last_pecr_store, erase_trace.
    rewrite !pecr_stores_app, pecr_stores_wait. reflexivity.
  - rewrite !lor_bit_other by lia. auto.
Qed.

Lemma word_after_erase_is_stored_with_erase_selected_witness :
  runs (FLASHErase_Page 0x08003000;; FLASHUpd_Word 0x08003000 0xDEADBEEF)
       example_erase_then_word tt /\
  bit_monitor 9 None example_erase_then_word <> None /\
  bit_monitor 3 None example_erase_then_word <> None /\
  exists tr1 post c,
    runs (FLASHErase_Page 0x08003000) tr1 tt /\
    example_erase_then_word
    = tr1 ++ unlock_obs ++ OMem 0x08003000 0xDEADBEEF :: post /\
    mem_stores post = [] /\
    last_pecr_store (tr1 ++ unlock_obs) = Some c /\
    Z.testbit c 9 = true /\ Z.testbit c 3 = true.
Proof.
  assert (M9 : bit_monitor 9 None example_erase_then_word <> None) by discriminate.
  assert (M3 : bit_monitor 3 None example_erase_then_word <> None) by discriminate.
  split; [exact example_erase_then_word_runs|]. split; [exact M9|].
  split; [exact M3|].
  exact (word_after_erase_is_stored_with_erase_selected
           0x08003000 0x08003000 0xDEADBEEF _ example_erase_then_word_runs M9 M3).
Defined.

(** ** The completion is acknowledged only after it is seen *)

Lemma sr_stores_app l1 l2 : sr_stores (l1 ++ l2) = sr_stores l1 ++ sr_stores l2.
Proof. apply flat_map_app. Qed.

Lemma sr_stores_polls ss : sr_stores (polls ss) = [].
Proof. induction ss; simpl; auto. Qed.

Lemma sr_stores_burst a ws : forall idx, sr_stores (burst_trace a idx ws) = [].
Proof. induction ws; intros; simpl; auto. Qed.

Lemma sr_stores_before op v1 v2 ws : sr_stores (before_wait op v1 v2 ws) = [].
Proof. destruct op; simpl; auto. apply sr_stores_burst. Qed.

Lemma sr_stores_after op cl1 cl2 lk : sr_stores (after_wait op cl1 cl2 lk) = [].
Proof. destruct op; reflexivity. Qed.

Lemma sr_stores_wait_loads w : sr_stores (wait_loads w) = [].
Proof.
  unfold wait_loads. rewrite sr_stores_app, sr_stores_polls. simpl.
  rewrite sr_stores_app, sr_stores_polls. reflexivity.
Qed.

Lemma wait_trace_loads w :
  wait_trace w = wait_loads w ++ [OWrite SR (Z.lor (wa_ack w) (BIT 1))].
Proof. unfold wait_trace, wait_loads. trace_eq. Qed.

(** X12.  No operation acknowledges a completion it has not seen.  In
    every execution of [FLASHErase_Page], [FLASHUpd_Word] or
    [FLASHUpd_HalfPage], returned or not, in which [SR] has been written,
    the whole completion wait lies before that store: the loads of [SR]
    that showed the busy flag set, one that showed it clear, those that
    showed the completion flag clear and one that showed it set; the
    store is the only one to [SR], and it writes back the value loaded
    just before with bit 1 set. *)
Theorem completion_is_acknowledged_only_after_it_is_seen
  (op : mutating_op) (tr : trace) :
  partial (run_op op) tr -> sr_stores tr <> [] ->
  exists pre w rest,
    tr = pre ++ wait_trace w ++ rest /\
    sr_accesses pre = [] /\ sr_accesses rest = [] /\
    Forall (fun s => Z.testbit s 0 = true) (wa_busy w) /\
    Z.testbit (wa_idle w) 0 = false /\
    Forall (fun s => Z.testbit s 1 = false) (wa_pending w) /\
    Z.testbit (wa_done w) 1 = true /\
    sr_stores tr = [Z.lor (wa_ack w) (BIT 1)].
Proof.
  intros H M. destruct (ext_run_op op tr H) as (tr' & [] & Hr).
  apply run_op_shape in Hr.
  destruct Hr as (v1 & v2 & ws & w & cl1 & cl2 & lk & L & Hw & E).
  rewrite wait_trace_loads, <- app_assoc, app_assoc in E.
  assert (Mp : sr_stores (before_wait op v1 v2 ws ++ wait_loads w) = []).
  { rewrite sr_stores_app, sr_stores_before, sr_stores_wait_loads. reflexivity. }
  destruct (gone_past _ _ _ _ _ E Mp M) as (rest & ->).
  rewrite <- app_assoc in E. apply app_inv_head in E.
  rewrite sr_stores_app, Mp in M. cbn [app] in M.
  destruct rest as [|e rest]; [destruct M; reflexivity|].
  cbn [app] in E. injection E as -> E.
  assert (Sr : sr_accesses rest = []).
  { pose proof (sr_accesses_after op cl1 cl2 lk) as A.
    rewrite <- E, sr_accesses_app in A. apply app_eq_nil in A. tauto. }
  assert (Ss : sr_stores rest = []).
  { pose proof (sr_stores_after op cl1 cl2 lk) as A.
    rewrite <- E, sr_stores_app in A. apply app_eq_nil in A. tauto. }
  destruct (wait_ok_bits w Hw) as (B1 & B2 & B3 & B4).
  exists (before_wait op v1 v2 ws), w, rest.
  split; [rewrite wait_trace_loads; trace_eq|].
  split; [apply sr_accesses_before|]. split; [exact Sr|].
  do 4 (split; [assumption|]).
  rewrite sr_stores_app, Mp. cbn [app sr_stores flat_map].
  fold (sr_stores rest). rewrite Ss. reflexivity.
Qed.

Lemma completion_is_acknowledged_only_after_it_is_seen_witness :
  partial (run_op (ErasePage 0x08003000)) example_erase_run /\
  sr_stores example_erase_run <> [] /\
  exists pre w rest,
    example_erase_run = pre ++ wait_trace w ++ rest /\
    sr_accesses pre = [] /\ sr_accesses rest = [] /\
    Forall (fun s => Z.testbit s 0 = true) (wa_busy w) /\
    Z.testbit (wa_idle w) 0 = false /\
    Forall (fun s => Z.testbit s 1 = false) (wa_pending w) /\
    Z.testbit (wa_done w) 1 = true /\
    sr_stores example_erase_run = [Z.lor (wa_ack w) (BIT 1)].
Proof.
  assert (P : partial (run_op (ErasePage 0x08003000)) example_erase_run)
    by exact (runs_partial _ _ _ example_erase_runs).
  assert (M : sr_stores example_erase_run <> []) by discriminate.
  split; [exact P|]. split; [exact M|].
  exact (completion_is_acknowledged_only_after_it_is_seen _ _ P M).
Defined.

(** ** Where the operations store *)

Lemma before_wait_stores op v1 v2 ws :
  List.length ws = 16%nat ->
  Forall (fun s => fst s = target_address op) (mem_stores (before_wait op v1 v2 ws)) /\
  List.length (mem_stores (before_wait op v1 v2 ws)) = store_count op.
Proof.
  intros L. destruct op as [a|a x|a p h]; cbn [before_wait target_address store_count].
  - split; [repeat constructor|reflexivity].
  - split; [repeat constructor|reflexivity].
  - assert (E : mem_stores (unlock_obs ++ set_obs PECR (BIT 3) v1 ++
                            set_obs PECR (BIT 10) v2 ++ [OIrqOff] ++
                            burst_trace a (32 * p + 16 * h) ws)
                = map (fun w => (a, w)) ws).
    { rewrite !mem_stores_app, mem_stores_burst. reflexivity. }
    rewrite E. split; [|rewrite length_map; exact L].
    apply Forall_forall. intros s Hs. apply in_map_iff in Hs.
    destruct Hs as (w & <- & _). reflexivity.
Qed.

(** X13.  An operation stores to flash at the address it was given and
    nowhere else.  In every execution of [FLASHErase_Page],
    [FLASHUpd_Word] or [FLASHUpd_HalfPage], returned or not, every store
    to flash made so far goes to the address passed to the function, and
    there are at most sixteen of them for half-page programming and at
    most one for the other two; a run that returns has made exactly that
    many. *)
Theorem stores_go_to_the_given_address_only (op : mutating_op) (tr : trace) :
  partial (run_op op) tr ->
  Forall (fun s => fst s = target_address op) (mem_stores tr) /\
  (List.length (mem_stores tr) <= store_count op)%nat /\
  (runs (run_op op) tr tt -> List.length (mem_stores tr) = store_count op).
Proof.
  intros H.
  assert (S : forall t, runs (run_op op) t tt ->
            Forall (fun s => fst s = target_address op) (mem_stores t) /\
            List.length (mem_stores t) = store_count op).
  { intros t Ht. apply run_op_shape in Ht.
    destruct Ht as (v1 & v2 & ws & w & cl1 & cl2 & lk & L & _ & ->).
    rewrite !mem_stores_app, mem_stores_wait, mem_stores_after, app_nil_r.
    apply before_wait_stores. exact L. }
  destruct (ext_run_op op tr H) as (tr' & [] & Hr).
  destruct (S _ Hr) as [F N]. rewrite mem_stores_app in F, N.
  apply Forall_app in F. rewrite length_app in N.
  split; [tauto|]. split; [lia|].
  intros Ht. apply S. exact Ht.
Qed.

Lemma stores_go_to_the_given_address_only_witness :
  partial (run_op (ProgramHalfPage 0x08003000 0 0)) example_halfpage_run /\
  Forall (fun s => fst s = 0x08003000) (mem_stores example_halfpage_run) /\
  (List.length (mem_stores example_halfpage_run) <= 16)%nat /\
  (runs (run_op (ProgramHalfPage 0x08003000 0 0)) example_halfpage_run tt ->
   List.length (mem_stores example_halfpage_run) = 16%nat).
Proof.
  assert (P : partial (run_op (ProgramHalfPage 0x08003000 0 0)) example_halfpage_run)
    by exact (runs_partial _ _ _ example_halfpage_runs).
  split; [exact P|].
  exact (stores_go_to_the_given_address_only _ _ P).
Defined.

(** ** The interrupt mask on return *)

Lemma mask_after_irq_events tr : forall m,
  mask_after m tr = mask_after m (irq_events tr).
Proof.
  unfold mask_after.
  induction tr as [|e tr IH]; intros m; [reflexivity|].
  destruct e; cbn [irq_events filter fold_left]; apply IH.
Qed.

Lemma irq_events_burst a ws : forall idx, irq_events (burst_trace a idx ws) = [].
Proof. induction ws; intros; simpl; auto. Qed.

Lemma sr_loads_app l1 l2 : sr_loads (l1 ++ l2) = sr_loads l1 ++ sr_loads l2.
Proof. apply flat_map_app. Qed.

Lemma sr_loads_burst a ws : forall idx, sr_loads (burst_trace a idx ws) = [].
Proof. induction ws; intros; simpl; auto. Qed.

Lemma halfpage_irq_events a p h v1 v2 ws w v3 v4 v5 :
  irq_events (halfpage_trace a p h v1 v2 ws w v3 v4 v5) = [OIrqOff; OIrqOn].
Proof.
  unfold halfpage_trace.
  rewrite !irq_events_app, irq_events_burst, irq_events_wait. reflexivity.
Qed.

(** X14.  [FLASHUpd_HalfPage] does not save the interrupt mask: it
    returns with interrupts unmasked whether or not they were masked when
    it was called, having called [__disable_irq()] once and
    [__enable_irq()] once; and while it has not called [__enable_irq()],
    from its first load of [SR] on, interrupts are masked, so an
    execution that stays in the completion wait stays there with
    interrupts masked.  [NVM_Init], [FLASHErase_Page] and [FLASHUpd_Word]
    return with the mask they were called with. *)
Theorem halfpage_returns_with_interrupts_unmasked :
  (forall a p h tr m, runs (FLASHUpd_HalfPage a p h) tr tt ->
     irq_events tr = [OIrqOff; OIrqOn] /\ mask_after m tr = false) /\
  (forall a p h tr m, partial (FLASHUpd_HalfPage a p h) tr ->
     sr_loads tr <> [] -> ~ In OIrqOn tr -> mask_after m tr = true) /\
  (forall tr m, runs NVM_Init tr tt -> mask_after m tr = m) /\
  (forall a tr m, runs (FLASHErase_Page a) tr tt -> mask_after m tr = m) /\
  (forall a x tr m, runs (FLASHUpd_Word a x) tr tt -> mask_after m tr = m).
Proof.
  split; [|split; [|split; [|split]]].
  - intros a p h tr m H. apply runs_FLASHUpd_HalfPage in H.
    destruct H as (v1 & v2 & ws & w & v3 & v4 & v5 & _ & _ & ->).
    rewrite mask_after_irq_events, halfpage_irq_events. auto.
  - intros a p h tr m H Hs Hn.
    destruct (ext_FLASHUpd_HalfPage a p h tr H) as (tr' & [] & Hr).
    apply (run_op_shape (ProgramHalfPage a p h)) in Hr.
    destruct Hr as (v1 & v2 & ws & w & cl1 & cl2 & lk & L & Hw & E).
    assert (Sp : sr_loads (before_wait (ProgramHalfPage a p h) v1 v2 ws) = []).
    { cbn [before_wait]. rewrite !sr_loads_app, sr_loads_burst. reflexivity. }
    destruct (gone_past _ _ _ _ _ E Sp Hs) as (rest & ->).
    rewrite <- app_assoc in E. apply app_inv_head in E.
    assert (I : irq_events (rest ++ tr') = [OIrqOn]).
    { rewrite E, irq_events_app, irq_events_wait. reflexivity. }
    rewrite irq_events_app in I.
    assert (Ir : irq_events rest = []).
    { destruct (irq_events rest) as [|e l] eqn:Er; [reflexivity|].
      injection I as -> _. destruct Hn. apply in_or_app. right.
      assert (Hin : In OIrqOn (irq_events rest)) by (rewrite Er; left; reflexivity).
      apply filter_In in Hin. tauto. }
    rewrite mask_after_irq_events, irq_events_app, Ir, app_nil_r.
    cbn [before_wait]. rewrite !irq_events_app, irq_events_burst. reflexivity.
  - intros tr m H. apply runs_NVM_Init in H. destruct H as (v1 & v2 & v3 & ->).
    reflexivity.
  - intros a tr m H. apply runs_FLASHErase_Page in H.
    destruct H as (v1 & v2 & w & v3 & _ & ->).
    rewrite mask_after_irq_events.
    destruct (erase_trace_stores a v1 v2 w v3) as (-> & _). reflexivity.
  - intros a x tr m H. apply runs_FLASHUpd_Word in H.
    destruct H as (w & v & _ & ->).
    rewrite mask_after_irq_events.
    destruct (word_trace_stores a x w v) as (-> & _). reflexivity.
Qed.

(** ** The burst of half-page programming *)

Lemma finishes_burst_body a p h i : finishes_within 2 (burst_body a p h i).
Proof.
  unfold burst_body. destruct (i <? 16).
  - apply (finishes_bind 1 1); [apply finishes_trigger|intros w].
    apply (finishes_bind 1 0); [apply finishes_trigger|intros _; apply finishes_ret].
  - intros n tr o H. apply exec_ret_inv in H. lia.
Qed.

(** With [k] rounds to go the loop takes at most [3*k] steps: a load, a
    store and the jump back, each round. *)
Lemma finishes_burst_loop a p h (k : nat) : forall i,
  Z.of_nat k = 16 - i -> (k <= 16)%nat ->
  finishes_within (3 * k) (burst_loop a p h i).
Proof.
  unfold burst_loop.
  induction k as [|k IH]; intros i Hi Hk n tr o H;
    apply (exec_observe _ _ _ _ _ (observe_iter (burst_body a p h) i)) in H;
    apply exec_bind_inv in H;
    destruct H as [[_ H]|(n1 & n2 & x & tr1 & tr2 & -> & _ & H1 & H2)].
  - unfold burst_body in H.
    replace (i <? 16) with false in H by (symmetry; apply Z.ltb_ge; lia).
    apply exec_ret_inv in H. lia.
  - unfold burst_body in H1.
    replace (i <? 16) with false in H1 by (symmetry; apply Z.ltb_ge; lia).
    apply exec_ret_inv in H1. destruct H1 as (-> & _ & [E|E]); [discriminate|].
    injection E as ->. apply exec_ret_inv in H2. lia.
  - apply finishes_burst_body in H. lia.
  - pose proof (finishes_burst_body a p h i _ _ _ H1) as B1.
    assert (R1 : runs (burst_body a p h i) tr1 x) by (exists n1; exact H1).
    apply runs_burst_body in R1.
    replace (i <? 16) with true in R1 by (symmetry; apply Z.ltb_lt; lia).
    destruct R1 as (w & _ & ->).
    replace (wrap8 (i + 1)) with (i + 1) in H2
      by (unfold wrap8; symmetry; apply Z.mod_small; lia).
    destruct n2 as [|n2]; [lia|]. cbn [exec] in H2.
    change (observe (Tau (ITree.iter (burst_body a p h) (i + 1))))
      with (TauF (E := nvmE) (R := unit) (ITree.iter (burst_body a p h) (i + 1))) in H2.
    cbv iota in H2.
    pose proof (IH (i + 1) ltac:(lia) ltac:(lia) _ _ _ H2). lia.
Qed.

(** C1.  For every page index, half-page index and address,
    [FLASHUpd_HalfPage addr page half] makes the burst.  Whatever sixteen
    words the buffer holds and whatever the registers answer (the
    controller completing the operation), there is the run that loads
    those words at the indices [32*page + 16*half + i], [i = 0 .. 15], and
    stores each at [addr]; the loop of the burst never spins: every
    execution of it ends within 48 steps (sixteen rounds of a load, a
    store and a jump back), and its runs are exactly the sixteen loads,
    each followed by the store of the loaded word at [addr].  Every
    execution of the function that has got as far as loading [SR], returned
    or not, has made exactly these sixteen loads and sixteen stores.  In
    every run that returns, the loads from the buffer are exactly sixteen,
    at the consecutive indices [32*page + 16*half + i], and the stores to
    flash are exactly sixteen, every one at the same address [addr],
    carrying the loaded words in the order they were loaded: the
    destination is not advanced between the writes. *)
Theorem halfpage_burst_reads_and_writes (addr page half : Z) :
  (forall (ws : list Z) (w : wait_answers) (v1 v2 v3 v4 v5 : Z),
     List.length ws = 16%nat -> wait_ok w ->
     runs (FLASHUpd_HalfPage addr page half)
          (halfpage_trace addr page half v1 v2 ws w v3 v4 v5) tt) /\
  finishes_within 48 (burst_loop addr page half 0) /\
  (forall tr, runs (burst_loop addr page half 0) tr tt <->
     exists ws, List.length ws = 16%nat /\
                tr = burst_trace addr (32 * page + 16 * half) ws) /\
  (forall tr, partial (FLASHUpd_HalfPage addr page half) tr -> sr_loads tr <> [] ->
     exists ws, List.length ws = 16%nat /\
       buf_loads tr = indexed (32 * page + 16 * half) ws /\
       mem_stores tr = map (fun w => (addr, w)) ws) /\
  (forall tr, runs (FLASHUpd_HalfPage addr page half) tr tt ->
     exists ws : list Z,
       List.length ws = 16%nat /\
       buf_loads tr = indexed (32 * page + 16 * half) ws /\
       (forall i, (i < 16)%nat ->
          nth i (map fst (buf_loads tr)) 0 = 32 * page + 16 * half + Z.of_nat i) /\
       mem_stores tr = map (fun w => (addr, w)) ws /\
       map fst (mem_stores tr) = repeat addr 16).
Proof.
  split; [|split; [|split; [|split]]].
  - intros ws w v1 v2 v3 v4 v5 L Hw. apply runs_FLASHUpd_HalfPage.
    exists v1, v2, ws, w, v3, v4, v5. auto.
  - apply (finishes_burst_loop addr page half 16 0); [reflexivity|lia].
  - intros tr.
    rewrite (runs_burst_loop addr page half 16 0 tr) by (reflexivity || lia).
    rewrite Z.add_0_r. reflexivity.
  - intros tr H Hs.
    destruct (ext_FLASHUpd_HalfPage addr page half tr H) as (tr' & [] & Hr).
    apply (run_op_shape (ProgramHalfPage addr page half)) in Hr.
    destruct Hr as (v1 & v2 & ws & w & cl1 & cl2 & lk & L & Hw & E).
    assert (Sp : sr_loads (before_wait (ProgramHalfPage addr page half) v1 v2 ws) = []).
    { cbn [before_wait]. rewrite !sr_loads_app, sr_loads_burst. reflexivity. }
    destruct (gone_past _ _ _ _ _ E Sp Hs) as (rest & ->).
    rewrite <- app_assoc in E. apply app_inv_head in E.
    assert (Br : buf_loads rest = [] /\ mem_stores rest = []).
    { assert (B : buf_loads (rest ++ tr') = [])
        by (rewrite E, buf_loads_app, buf_loads_wait; reflexivity).
      assert (M : mem_stores (rest ++ tr') = [])
        by (rewrite E, mem_stores_app, mem_stores_wait; reflexivity).
      rewrite buf_loads_app in B. rewrite mem_stores_app in M.
      apply app_eq_nil in B. apply app_eq_nil in M. tauto. }
    destruct Br as [Br Mr].
    exists ws. split; [exact L|].
    rewrite buf_loads_app, mem_stores_app, Br, Mr, !app_nil_r.
    cbn [before_wait].
    rewrite !buf_loads_app, !mem_stores_app, buf_loads_burst, mem_stores_burst.
    split; reflexivity.
  - intros tr H. apply runs_FLASHUpd_HalfPage in H.
    destruct H as (v1 & v2 & ws & w & v3 & v4 & v5 & L & Hw & ->).
    exists ws. split; [exact L|].
    assert (B : buf_loads (halfpage_trace addr page half v1 v2 ws w v3 v4 v5)
                = indexed (32 * page + 16 * half) ws)
      by apply halfpage_trace_loads.
    assert (M : mem_stores (halfpage_trace addr page half v1 v2 ws w v3 v4 v5)
                = map (fun x => (addr, x)) ws).
    { unfold halfpage_trace.
      rewrite !mem_stores_app, mem_stores_burst, mem_stores_wait. simpl.
      apply app_nil_r. }
    rewrite B, M. repeat split.
    + intros i Hi.
      change 0 with (fst (0, 0)). rewrite map_nth.
      rewrite indexed_nth by lia. reflexivity.
    + rewrite map_map, <- L. clear.
      induction ws as [|x ws IH]; simpl in *; [reflexivity|].
      f_equal. exact IH.
Qed.

(** The second half of page 3 of the buffer: the run exists, and its
    loads are at the indices 112 to 127. *)
Lemma halfpage_burst_reads_and_writes_witness :
  runs (FLASHUpd_HalfPage 0x080031C0 3 1) example_halfpage_run_3_1 tt /\
  map fst (buf_loads example_halfpage_run_3_1) = map Z.of_nat (seq 112 16) /\
  map fst (mem_stores example_halfpage_run_3_1) = repeat 0x080031C0 16.
Proof.
  pose proof (halfpage_burst_reads_and_writes 0x080031C0 3 1)
    as (Hrun & _ & _ & _ & Hret).
  assert (R : runs (FLASHUpd_HalfPage 0x080031C0 3 1) example_halfpage_run_3_1 tt)
    by (apply Hrun; [reflexivity|exact example_wait_ok]).
  split; [exact R|].
  destruct (Hret _ R) as (ws & _ & _ & _ & _ & A).
  split; [reflexivity|exact A].
Defined.
